(** * win_unc: the [net use] table parser and the UNC address parser

    A shallow embedding of [win_unc/internal/net_use_table.py] and of the
    parsing entry points exercised by [test/test_unc_directory.py], with the
    properties of the natural-language specification stated over it.

    Python 2 [str] values are byte strings: they are modelled as [string],
    integers as [Z], dictionaries as [gmap], raised exceptions as the [Err]
    branch of [result]. *)

From Stdlib Require Import ZArith String Ascii List Lia Bool.
From stdpp Require Import base option list gmap strings.

Local Open Scope string_scope.
Local Open Scope Z_scope.

(** ** Exceptions *)

(** The exceptions the modelled code can raise.  [RuntimeError] stands for
    the use of a reference to no object, which the store of column objects
    below has to account for and which Python code cannot produce. *)
Inductive exn : Type :=
  | KeyError
  | IndexError
  | ValueError
  | FormatError
  | RuntimeError.

Inductive result (A : Type) : Type :=
  | Ok (a : A)
  | Err (e : exn).
Arguments Ok {A} a.
Arguments Err {A} e.

Definition rbind {A B : Type} (m : result A) (k : A -> result B) : result B :=
  match m with
  | Ok a => k a
  | Err e => Err e
  end.

Notation "'let*' x ':=' m 'in' k" := (rbind m (fun x => k))
  (at level 10, x name, m at level 100, k at level 200).

(** ** Python 2 byte-string builtins *)

Module PyStr.

Definition isspace (c : ascii) : bool := Ascii.is_space c.

Definition isupper (c : ascii) : bool :=
  let n := nat_of_ascii c in (Nat.leb 65 n && Nat.leb n 90)%bool.

Definition islower (c : ascii) : bool :=
  let n := nat_of_ascii c in (Nat.leb 97 n && Nat.leb n 122)%bool.

(** [c.isalpha()] in the C locale. *)
Definition isalpha (c : ascii) : bool := (isupper c || islower c)%bool.

Definition lower_char (c : ascii) : ascii :=
  if isupper c then ascii_of_nat (nat_of_ascii c + 32) else c.

(** [s.lower()] *)
Fixpoint lower (s : string) : string :=
  match s with
  | "" => ""
  | String c t => String (lower_char c) (lower t)
  end.

(** [len(s)] *)
Definition len (s : string) : Z := Z.of_nat (String.length s).

(** [s.startswith(p)] *)
Fixpoint startswith (s p : string) : bool :=
  match p, s with
  | "", _ => true
  | String a p', String b s' => if Ascii.eqb a b then startswith s' p' else false
  | String _ _, "" => false
  end.

Fixpoint str_drop (n : nat) (s : string) : string :=
  match n, s with
  | O, _ => s
  | S n', String _ t => str_drop n' t
  | S _, "" => ""
  end.

Fixpoint str_take (n : nat) (s : string) : string :=
  match n, s with
  | O, _ => ""
  | S n', String c t => String c (str_take n' t)
  | S _, "" => ""
  end.

(** [s.endswith(p)] *)
Definition endswith (s p : string) : bool :=
  (Nat.leb (String.length p) (String.length s)
   && String.eqb (str_drop (String.length s - String.length p) s) p)%bool.

(** A slice bound, as Python resolves it against a sequence of length [L]:
    a negative bound counts from the end, and the result is clipped to
    [0 .. L]. *)
Definition clip (L i : Z) : Z :=
  if i <? 0 then Z.max 0 (i + L) else Z.min i L.

(** [s[start:stop]]; [None] is an omitted bound. *)
Definition slice (s : string) (start stop : option Z) : string :=
  let L := len s in
  let a := match start with Some i => clip L i | None => 0 end in
  let b := match stop with Some j => clip L j | None => L end in
  str_take (Z.to_nat (b - a)) (str_drop (Z.to_nat a) s).

(** [s.lstrip(chars)] and [s.rstrip(chars)], the character set given as a
    predicate. *)
Fixpoint lstrip_by (p : ascii -> bool) (s : string) : string :=
  match s with
  | "" => ""
  | String c t => if p c then lstrip_by p t else s
  end.

Fixpoint rstrip_by (p : ascii -> bool) (s : string) : string :=
  match s with
  | "" => ""
  | String c t =>
      match rstrip_by p t with
      | "" => if p c then "" else String c ""
      | r => String c r
      end
  end.

Definition lstrip : string -> string := lstrip_by isspace.
Definition rstrip : string -> string := rstrip_by isspace.
(** [s.strip()] *)
Definition strip (s : string) : string := lstrip (rstrip s).

(** [s.find(sub)], [None] standing for [-1]. *)
Fixpoint find (s sub : string) : option nat :=
  if startswith s sub then Some O
  else match s with
       | "" => None
       | String _ t => S <$> find t sub
       end.

(** [s.index(sub)] *)
Definition index (s sub : string) : result Z :=
  match find s sub with
  | Some i => Ok (Z.of_nat i)
  | None => Err ValueError
  end.

(** [sub in s] *)
Definition contains (sub s : string) : bool :=
  match find s sub with Some _ => true | None => false end.

(** [s.split()]: the maximal runs of non-whitespace characters. *)
Fixpoint split (s : string) : list string :=
  match s with
  | "" => []
  | String c t =>
      if isspace c then split t
      else match t with
           | "" => [String c ""]
           | String d _ =>
               if isspace d then String c "" :: split t
               else match split t with
                    | w :: ws => String c w :: ws
                    | [] => [String c ""]
                    end
           end
  end.

(** [s.split(sep)] for a one-character separator. *)
Fixpoint split_on (sep : ascii) (s : string) : list string :=
  match s with
  | "" => [""]
  | String c t =>
      if Ascii.eqb c sep then "" :: split_on sep t
      else match split_on sep t with
           | w :: ws => String c w :: ws
           | [] => [String c ""]
           end
  end.

(** Truth value of a string: non-empty. *)
Definition truthy (s : string) : bool :=
  match s with "" => false | String _ _ => true end.

(** [all(f(c) for c in s)] *)
Fixpoint all_chars (f : ascii -> bool) (s : string) : bool :=
  match s with
  | "" => true
  | String c t => (f c && all_chars f t)%bool
  end.

End PyStr.

(** ** [win_unc.internal.parsing] *)

Module Parsing.

(** Modelled from the spec: the module [win_unc/internal/parsing.py]
    ([take_while], [drop_while], [not_], [first], [rfirst]) is missing from
    the sources.  Section 4.1 takes "the lines preceding the first
    separator line" and section 4.2 the "lines following the separator, up
    to (but excluding) a terminator line": [take_while] is the longest
    prefix whose elements all satisfy the predicate and [drop_while] is
    what remains after it. *)
Fixpoint take_while {A : Type} (p : A -> bool) (items : list A) : list A :=
  match items with
  | [] => []
  | x :: rest => if p x then x :: take_while p rest else []
  end.

(** Modelled from the spec: [drop_while], the lines from the first one
    that fails the predicate onwards (section 4.2, "lines following the
    separator"). *)
Fixpoint drop_while {A : Type} (p : A -> bool) (items : list A) : list A :=
  match items with
  | [] => []
  | x :: rest => if p x then drop_while p rest else items
  end.

(** Modelled from the spec: [not_] negates a predicate. *)
Definition not_ {A : Type} (f : A -> bool) : A -> bool := fun x => negb (f x).

(** Modelled from the spec: [first] returns the first element satisfying
    the predicate, if there is one. *)
Fixpoint first {A : Type} (p : A -> bool) (items : list A) : option A :=
  match items with
  | [] => None
  | x :: rest => if p x then Some x else first p rest
  end.

(** Modelled from the spec: [rfirst] "select[s] the last line" satisfying
    the predicate (section 4.1), and the parse "fails with a FormatError if
    no alphabetic header line exists" among the lines it is given. *)
Definition rfirst {A : Type} (p : A -> bool) (items : list A) : result A :=
  match first p (rev items) with
  | Some x => Ok x
  | None => Err FormatError
  end.

End Parsing.

(** ** [win_unc.internal.net_use_table] *)

(** [NetUseColumn]: a column's name and the slice of a row holding its data.
    [end_] is [None] when the column runs to the end of the line. *)
Record NetUseColumn : Type := mkNetUseColumn {
  name : string;
  start : Z;
  end_ : option Z;
}.

(** [NetUseColumn.extract] *)
Definition extract (self : NetUseColumn) (s : string) : string :=
  PyStr.strip (PyStr.slice s (Some (start self)) (end_ self)).

(** A row is a dictionary from column names to values; a [NetUseTable] holds
    its [rows] in insertion order. *)
Record NetUseTable : Type := mkNetUseTable {
  rows : list (gmap string string);
}.

Definition NetUseTable_init : NetUseTable := mkNetUseTable [].

Definition add_row (self : NetUseTable) (row : gmap string string) : NetUseTable :=
  mkNetUseTable (rows self ++ [row]).

(** [d[k]] on a dictionary. *)
Definition getitem (d : gmap string string) (k : string) : result string :=
  match d !! k with
  | Some v => Ok v
  | None => Err KeyError
  end.

(** [[f(x) for x in items]] where [f] may raise. *)
Fixpoint map_result {A B : Type} (f : A -> result B) (items : list A)
  : result (list B) :=
  match items with
  | [] => Ok []
  | x :: rest =>
      let* y := f x in
      let* ys := map_result f rest in
      Ok (y :: ys)
  end.

Definition get_column (self : NetUseTable) (column : string) : result (list string) :=
  map_result (fun row => getitem row column) (rows self).

Definition get_connected_paths (self : NetUseTable) : result (list string) :=
  get_column self "remote".

Definition get_connected_devices (self : NetUseTable) : result (list string) :=
  let* devices := get_column self "local" in
  Ok (List.filter PyStr.truthy devices).

Definition EMPTY_TABLE_INDICATOR : string := "There are no entries in the list.".
Definition LAST_TABLE_LINE : string := "The command completed successfully.".

(** The dictionary literal, in the order it is written. *)
Definition MAP_RAW_COLUMNS_TO_STANDARD_COLUMNS : list (string * string) :=
  [("Local", "local"); ("Remote", "remote"); ("Status", "status")].

Definition is_colon (c : ascii) : bool := Ascii.eqb c ":".

Definition drive_letters_equal (left right : string) : bool :=
  String.eqb (PyStr.lower (PyStr.rstrip_by is_colon left))
             (PyStr.lower (PyStr.rstrip_by is_colon right)).

Definition ipc_suffix : string := "\ipc$".

Definition normalize_remote_path (path : string) : string :=
  let path := PyStr.lower path in
  if PyStr.endswith path ipc_suffix then PyStr.slice path (Some (-5)) None else path.

Definition remote_paths_equal (left right : string) : bool :=
  String.eqb (normalize_remote_path left) (normalize_remote_path right).

(** A keyword argument of [get_matching_rows] is [None] or a string; it is
    consulted only when it is truthy. *)
Definition criterion_given (c : option string) : option string :=
  match c with
  | Some s => if PyStr.truthy s then Some s else None
  | None => None
  end.

(** The body of the loop of [get_matching_rows]: whether [row] matches. *)
Definition row_matches (local remote status : option string)
    (row : gmap string string) : result bool :=
  let matching := true in
  let* m1 :=
    match criterion_given local with
    | Some l => let* v := getitem row "local" in Ok (drive_letters_equal l v)
    | None => Ok true
    end in
  let matching := (matching && m1)%bool in
  let* m2 :=
    match criterion_given remote with
    | Some r => let* v := getitem row "remote" in Ok (remote_paths_equal r v)
    | None => Ok true
    end in
  let matching := (matching && m2)%bool in
  let* m3 :=
    match criterion_given status with
    | Some s =>
        let* v := getitem row "status" in
        Ok (String.eqb (PyStr.lower s) (PyStr.lower v))
    | None => Ok true
    end in
  let matching := (matching && m3)%bool in
  Ok matching.

Fixpoint get_matching_rows_loop (local remote status : option string)
    (todo result_ : list (gmap string string)) : result (list (gmap string string)) :=
  match todo with
  | [] => Ok result_
  | row :: rest =>
      let* matching := row_matches local remote status row in
      get_matching_rows_loop local remote status rest
        (if matching then result_ ++ [row] else result_)
  end.

Definition get_matching_rows (self : NetUseTable)
    (local remote status : option string) : result (list (gmap string string)) :=
  get_matching_rows_loop local remote status (rows self) [].

(** [{new_key: d[old_key] for old_key, new_key in key_map.iteritems()}] *)
Fixpoint rekey_dict_loop (d : gmap string string) (key_map : list (string * string))
    (acc : gmap string string) : result (gmap string string) :=
  match key_map with
  | [] => Ok acc
  | (old_key, new_key) :: rest =>
      let* v := getitem d old_key in
      rekey_dict_loop d rest (<[new_key := v]> acc)
  end.

Definition rekey_dict (d : gmap string string) (key_map : list (string * string))
  : result (gmap string string) :=
  rekey_dict_loop d key_map ∅.

Definition is_dash (c : ascii) : bool := Ascii.eqb c "-".

(** [line and all(char == '-' for char in line)] as a truth value. *)
Definition is_line_separator (line : string) : bool :=
  (PyStr.truthy line && PyStr.all_chars is_dash line)%bool.

(** [lambda x: x and x[0].isalpha()] as a truth value. *)
Definition is_heading (x : string) : bool :=
  match x with
  | "" => false
  | String c _ => PyStr.isalpha c
  end.

(** [zip(names, starts, ends)], as long as its shortest argument. *)
Fixpoint zip3 {A B C : Type} (xs : list A) (ys : list B) (zs : list C)
  : list (A * B * C) :=
  match xs, ys, zs with
  | x :: xs', y :: ys', z :: zs' => (x, y, z) :: zip3 xs' ys' zs'
  | _, _, _ => []
  end.

Definition column_ends (starts : list Z) : list (option Z) :=
  List.map (fun right => Some (right - 1)) (List.tl starts) ++ [None].

(** [NetUseColumn(name, start, end)] *)
Definition mk_column : string * Z * option Z -> NetUseColumn :=
  fun '(name, start, end_) => mkNetUseColumn name start end_.

Definition columns_of_heading (headings : string) : result (list NetUseColumn) :=
  let names := PyStr.split headings in
  let* starts := map_result (fun name => PyStr.index headings name) names in
  let ends := column_ends starts in
  Ok (List.map mk_column (zip3 names starts ends)).

Definition get_columns (lines : list string) : result (list NetUseColumn) :=
  let header_iter := Parsing.take_while (Parsing.not_ is_line_separator) lines in
  let* headings := Parsing.rfirst is_heading header_iter in
  columns_of_heading headings.

(** [lambda x: x and x != LAST_TABLE_LINE] as a truth value. *)
Definition is_last_line (x : string) : bool :=
  (PyStr.truthy x && negb (String.eqb x LAST_TABLE_LINE))%bool.

Definition get_body (lines : list string) : list string :=
  let bottom := Parsing.drop_while (Parsing.not_ is_line_separator) lines in
  if Nat.ltb 1 (List.length bottom)
  then Parsing.take_while is_last_line (List.tl bottom)
  else [].

(** [{column.name: column.extract(line) for column in columns}] *)
Definition raw_dict (line : string) (columns : list NetUseColumn) : gmap string string :=
  fold_left (fun d column => <[name column := extract column line]> d) columns ∅.

Definition parse_singleline_row (line : string) (columns : list NetUseColumn)
  : result (gmap string string) :=
  rekey_dict (raw_dict line columns) MAP_RAW_COLUMNS_TO_STANDARD_COLUMNS.

(** The position that index [i] denotes in a list of length [n]; a negative
    index counts from the end, and an index outside the list raises. *)
Definition resolve_index (n : nat) (i : Z) : result nat :=
  let j := if i <? 0 then i + Z.of_nat n else i in
  if ((0 <=? j) && (j <? Z.of_nat n))%bool then Ok (Z.to_nat j) else Err IndexError.

Definition set_end (e : Z) (c : NetUseColumn) : NetUseColumn :=
  mkNetUseColumn (name c) (start c) (Some e).

Definition set_start (b : Z) (c : NetUseColumn) : NetUseColumn :=
  mkNetUseColumn (name c) b (end_ c).

(** The layout a two-line row is read with: [columns], copied, with the end
    of its second-to-last column and the start of its last one replaced. *)
Definition custom_columns (line1 : string) (columns : list NetUseColumn)
  : result (list NetUseColumn) :=
  let custom := columns in
  let* i := resolve_index (List.length custom) (-2) in
  let custom := alter (set_end (PyStr.len line1)) i custom in
  let* j := resolve_index (List.length custom) (-1) in
  let custom := alter (set_start (PyStr.len line1 + 1)) j custom in
  Ok custom.

Definition parse_multiline_row (line1 line2 : string) (columns : list NetUseColumn)
  : result (gmap string string) :=
  let singleline_row := line1 ++ " " ++ PyStr.strip line2 in
  let* custom := custom_columns line1 columns in
  parse_singleline_row singleline_row custom.

(** [zip(body_lines, body_lines[1:] + [''])] *)
Definition row_pairs (body_lines : list string) : list (string * string) :=
  zip body_lines (List.tl body_lines ++ [""]).

Fixpoint build_loop (columns : list NetUseColumn) (pairs : list (string * string))
    (table : NetUseTable) : result NetUseTable :=
  match pairs with
  | [] => Ok table
  | (this_row, next_row) :: rest =>
      let* table :=
        if negb (PyStr.startswith this_row " ") then
          if PyStr.startswith next_row " " then
            let* row := parse_multiline_row this_row next_row columns in
            Ok (add_row table row)
          else
            let* row := parse_singleline_row this_row columns in
            Ok (add_row table row)
        else Ok table in
      build_loop columns rest table
  end.

Definition build_net_use_table_from_parts (columns : list NetUseColumn)
    (body_lines : list string) : result NetUseTable :=
  build_loop columns (row_pairs body_lines) NetUseTable_init.

Definition newline : ascii := ascii_of_nat 10.

Definition split_lines (s : string) : list string :=
  List.map PyStr.rstrip (PyStr.split_on newline s).

Definition parse_populated_net_use_table (s : string) : result NetUseTable :=
  let lines := split_lines s in
  let* columns := get_columns lines in
  let body := get_body lines in
  build_net_use_table_from_parts columns body.

Definition parse_net_use_table (s : string) : result NetUseTable :=
  if PyStr.contains EMPTY_TABLE_INDICATOR s then Ok NetUseTable_init
  else parse_populated_net_use_table s.

Definition nl : string := String newline "".

Definition sample_output : string :=
  "New connections will be remembered." ++ nl ++
  "" ++ nl ++
  "Status       Local     Remote                    Network" ++ nl ++
  "-------------------------------------------------------------------------------" ++ nl ++
  "OK           X:        \\host\share              Microsoft Windows Network" ++ nl ++
  "Disconnected           \\another.host\with\a\long\path" ++ nl ++
  "                                                Microsoft Windows Network" ++ nl ++
  "The command completed successfully." ++ nl.

(** ** The column objects as [parse_multiline_row] sees them

    [NetUseColumn] instances are mutable objects and a layout is a list of
    references to them.  This section keeps the objects in a store, so that
    [deepcopy] and the two attribute assignments of [parse_multiline_row]
    are what they are in the source: an allocation of fresh objects and two
    writes through references. *)

Module Store.

Abbreviation loc := positive.
Abbreviation heap := (gmap positive NetUseColumn).

(** A computation that reads and writes the store and may raise. *)
Definition st (A : Type) : Type := heap -> result A * heap.

Definition ret {A : Type} (a : A) : st A := fun h => (Ok a, h).

Definition bind {A B : Type} (m : st A) (k : A -> st B) : st B :=
  fun h =>
    match m h with
    | (Ok a, h') => k a h'
    | (Err e, h') => (Err e, h')
    end.

Definition lift {A : Type} (r : result A) : st A := fun h => (r, h).

Notation "'let!' x ':=' m 'in' k" := (bind m (fun x => k))
  (at level 10, x name, m at level 100, k at level 200).

(** Reading the attributes of the object at [l]; a reference to no object
    does not occur in a run of the program. *)
Definition load (l : loc) : st NetUseColumn :=
  fun h =>
    match h !! l with
    | Some c => (Ok c, h)
    | None => (Err RuntimeError, h)
    end.

(** A new object with the attributes [c]. *)
Definition alloc (c : NetUseColumn) : st loc :=
  fun h => let l := fresh (dom h) in (Ok l, <[l := c]> h).

(** An attribute assignment on the object at [l]. *)
Definition modify (l : loc) (f : NetUseColumn -> NetUseColumn) : st unit :=
  fun h =>
    match h !! l with
    | Some c => (Ok tt, <[l := f c]> h)
    | None => (Err RuntimeError, h)
    end.

(** [copy.deepcopy] of a list of column objects: a new list whose elements
    are new objects; an object that occurs twice is copied once (the
    [memo] dictionary of [deepcopy]). *)
Fixpoint deepcopy_loop (columns : list loc) (memo : gmap positive positive)
  : st (list loc) :=
  match columns with
  | [] => ret []
  | l :: rest =>
      match memo !! l with
      | Some l' =>
          let! copies := deepcopy_loop rest memo in
          ret (l' :: copies)
      | None =>
          let! c := load l in
          let! l' := alloc c in
          let! copies := deepcopy_loop rest (<[l := l']> memo) in
          ret (l' :: copies)
      end
  end.

Definition deepcopy (columns : list loc) : st (list loc) :=
  deepcopy_loop columns ∅.

(** [columns[i]] on a list of references. *)
Definition item (columns : list loc) (i : Z) : st loc :=
  fun h =>
    match resolve_index (List.length columns) i with
    | Ok n =>
        match columns !! n with
        | Some l => (Ok l, h)
        | None => (Err IndexError, h)
        end
    | Err e => (Err e, h)
    end.

Fixpoint load_all (columns : list loc) : st (list NetUseColumn) :=
  match columns with
  | [] => ret []
  | l :: rest =>
      let! c := load l in
      let! cs := load_all rest in
      ret (c :: cs)
  end.

Definition parse_singleline_row (line : string) (columns : list loc)
  : st (gmap string string) :=
  let! cs := load_all columns in
  lift (parse_singleline_row line cs).

Definition parse_multiline_row (line1 line2 : string) (columns : list loc)
  : st (gmap string string) :=
  let singleline_row := line1 ++ " " ++ PyStr.strip line2 in
  let! custom_columns := deepcopy columns in
  let! c2 := item custom_columns (-2) in
  let! _ := modify c2 (set_end (PyStr.len line1)) in
  let! c1 := item custom_columns (-1) in
  let! _ := modify c1 (set_start (PyStr.len line1 + 1)) in
  parse_singleline_row singleline_row custom_columns.

Fixpoint build_loop (columns : list loc) (pairs : list (string * string))
    (table : NetUseTable) : st NetUseTable :=
  match pairs with
  | [] => ret table
  | (this_row, next_row) :: rest =>
      let! table :=
        if negb (PyStr.startswith this_row " ") then
          if PyStr.startswith next_row " " then
            let! row := parse_multiline_row this_row next_row columns in
            ret (add_row table row)
          else
            let! row := parse_singleline_row this_row columns in
            ret (add_row table row)
        else ret table in
      build_loop columns rest table
  end.

Definition build_net_use_table_from_parts (columns : list loc)
    (body_lines : list string) : st NetUseTable :=
  build_loop columns (row_pairs body_lines) NetUseTable_init.

(** The layout a list of references denotes in a store. *)
Definition layout (h : heap) (columns : list loc) : option (list NetUseColumn) :=
  mapM (fun l => h !! l) columns.

(** A store holding the four column objects of [sample_output]. *)
Definition sample_heap : heap :=
  list_to_map
    [(1%positive, mkNetUseColumn "Status" 0 (Some 12));
     (2%positive, mkNetUseColumn "Local" 13 (Some 22));
     (3%positive, mkNetUseColumn "Remote" 23 (Some 48));
     (4%positive, mkNetUseColumn "Network" 49 None)].

Definition sample_columns : list loc := [1; 2; 3; 4]%positive.

End Store.

(** ** [win_unc.unc_directory]: the address parser *)

Module UncDirectory.

(** Modelled from the spec: the class [UncCredentials] of
    [win_unc/unc_directory.py], which is missing from the sources.  Section 3
    makes it a pair of a username and a password, each absent ([None]) or a
    string, the empty string being distinct from absent. *)
Record UncCredentials : Type := mkUncCredentials {
  username : option string;
  password : option string;
}.

(** Modelled from the spec: the class [UncDirectory], missing from the
    sources; a path with credentials (section 3). *)
Record UncDirectory : Type := mkUncDirectory {
  path : string;
  creds : UncCredentials;
}.

(** [UncDirectory(path, username, password)] as the tests construct it. *)
Definition UncDirectory_init (path : string) (username password : option string)
  : UncDirectory :=
  mkUncDirectory path (mkUncCredentials username password).

(** [s.split(sep, 1)] when [sep] occurs in [s]: the text before the first
    [sep] and the text after it; [None] when [sep] does not occur. *)
Fixpoint split_first (sep : ascii) (s : string) : option (string * string) :=
  match s with
  | "" => None
  | String c t =>
      if Ascii.eqb c sep then Some ("", t)
      else match split_first sep t with
           | Some (before, after) => Some (String c before, after)
           | None => None
           end
  end.

(** [x or None] *)
Definition or_None (x : string) : option string :=
  if PyStr.truthy x then Some x else None.

(** Modelled from the spec: [get_creds_from_string], missing from the
    sources.  Section 4.5: "split on the first colon"; "if a colon was
    found, everything after it (including further colons) is the password
    (possibly empty string); if no colon was found, password is absent".
    For a username that is the empty string the spec has two readings (the
    parenthesis of section 4.5 keeps it as an empty username, the example
    [parse_address(":pass@\\path") == Directory("\\path",None,"pass")] of
    section 8 makes it absent); the assertions of
    [test_get_creds_from_string] on [':pass'], ['::'] and the empty string
    decide for the second one, and this definition follows them. *)
Definition get_creds_from_string (s : string) : UncCredentials :=
  match split_first ":" s with
  | Some (user, pass) => mkUncCredentials (or_None user) (Some pass)
  | None => mkUncCredentials (or_None s) None
  end.

(** The credential parser as the letter of section 4.5 describes it: an
    empty text before a colon is "an explicit empty username, not
    absent".  It is here to be compared with [get_creds_from_string]. *)
Definition get_creds_by_the_letter (s : string) : UncCredentials :=
  match split_first ":" s with
  | Some (user, pass) => mkUncCredentials (Some user) (Some pass)
  | None => mkUncCredentials (or_None s) None
  end.

Definition unc_mark : string := "@\\".

(** The split of [s] at its last occurrence of ['@'] followed by the UNC
    prefix: the text before that ['@'] and the text after it. *)
Fixpoint rsplit_unc (s : string) : option (string * string) :=
  match s with
  | "" => None
  | String c t =>
      match rsplit_unc t with
      | Some (before, after) => Some (String c before, after)
      | None => if PyStr.startswith s unc_mark then Some ("", t) else None
      end
  end.

(** Modelled from the spec: [get_unc_directory_from_string], missing from
    the sources.  Section 4.5: "scan for [@] followed immediately by the
    two-character prefix, and split there. If no such split point exists,
    the entire string is the path and there are no credentials"; section
    8: "the split point is the rightmost [@] immediately preceding the UNC
    prefix". *)
Definition get_unc_directory_from_string (s : string) : UncDirectory :=
  match rsplit_unc s with
  | Some (creds_part, path_part) =>
      mkUncDirectory path_part (get_creds_from_string creds_part)
  | None => UncDirectory_init s None None
  end.

Definition dquote : string := String (ascii_of_nat 34) "".

(** The assertions of [test_get_creds_from_string]: argument and expected
    value. *)
Definition test_get_creds_from_string : list (string * UncCredentials) :=
  [ ("", mkUncCredentials None None);
    ("user", mkUncCredentials (Some "user") None);
    ("user", mkUncCredentials (Some "user") None);
    (":" ++ dquote ++ dquote, mkUncCredentials None (Some (dquote ++ dquote)));
    ("::", mkUncCredentials None (Some ":"));
    (":pass", mkUncCredentials None (Some "pass"));
    ("user:", mkUncCredentials (Some "user") (Some ""));
    ("user:pass", mkUncCredentials (Some "user") (Some "pass"));
    ("user::", mkUncCredentials (Some "user") (Some ":")) ].

(** The assertions of [test_get_unc_directory_from_string]. *)
Definition test_get_unc_directory_from_string : list (string * UncDirectory) :=
  [ ("\\path", UncDirectory_init "\\path" None None);
    ("\\path\sub", UncDirectory_init "\\path\sub" None None);
    ("user@\\path", UncDirectory_init "\\path" (Some "user") None);
    (":pass@\\path", UncDirectory_init "\\path" None (Some "pass"));
    ("::@\\@\\path", UncDirectory_init "\\path" None (Some ":@\\"));
    ("user:pass@\\path", UncDirectory_init "\\path" (Some "user") (Some "pass"));
    ("user::@\\@\\path", UncDirectory_init "\\path" (Some "user") (Some ":@\\")) ].

Definition passes {A B : Type} (f : A -> B) (cases : list (A * B)) : Prop :=
  Forall (fun '(arg, expected) => f arg = expected) cases.

End UncDirectory.

(** ** The specification's wording, where it is compared with the code *)

(** Section 4.1 selects the header by the "first non-space character" of a
    line. *)
Definition is_heading_by_the_letter (x : string) : bool :=
  is_heading (PyStr.lstrip_by (Ascii.eqb " ") x).

(** Section 6 ends the body "at a line exactly equal to" the terminator "or
    at end of input". *)
Definition body_by_the_letter (lines : list string) : list string :=
  Parsing.take_while (fun x => negb (String.eqb x LAST_TABLE_LINE))
    (List.tl (Parsing.drop_while (Parsing.not_ is_line_separator) lines)).


(** The lines of [body_lines], each paired with the line after it, [final]
    standing after the last one: [row_pairs body_lines] is
    [pairs_with_next body_lines ""]. *)
Definition pairs_with_next (body_lines : list string) (final : string)
  : list (string * string) :=
  zip body_lines (List.tl body_lines ++ [final]).

(** The layout of [sample_output]. *)
Definition sample_layout : list NetUseColumn :=
  [mkNetUseColumn "Status" 0 (Some 12); mkNetUseColumn "Local" 13 (Some 22);
   mkNetUseColumn "Remote" 23 (Some 48); mkNetUseColumn "Network" 49 None].



(** The three raw titles are among the names of [columns]. *)
Definition has_standard_titles (columns : list NetUseColumn) : Prop :=
  In "Local" (List.map name columns) /\
  In "Remote" (List.map name columns) /\
  In "Status" (List.map name columns).

(** No colon among the characters of [s]. *)
Definition no_colon (s : string) : bool :=
  PyStr.all_chars (fun c => negb (is_colon c)) s.

(** The row of a share mounted from [\\host] on drive [Z:]. *)
Definition host_row : gmap string string :=
  {[ "local" := "Z:"; "remote" := "\\host"; "status" := "OK" ]}.

(** A string without whitespace at either end. *)
Definition trimmed (s : string) : Prop :=
  PyStr.lstrip s = s /\ PyStr.rstrip s = s.

(** [sub] occurs in [s] at offset [n], and at no smaller offset. *)
Definition first_occurrence (s sub : string) (n : nat) : Prop :=
  PyStr.startswith (PyStr.str_drop n s) sub = true /\
  forall j : nat, (j < n)%nat -> PyStr.startswith (PyStr.str_drop j s) sub = false.

(** [sub] occurs somewhere in [s]. *)
Definition occurs_in (sub s : string) : Prop :=
  exists before after : string, s = before ++ sub ++ after.

(** A row of the standard schema: exactly the keys [local], [remote] and
    [status], each bound to a trimmed string. *)
Definition standard_row (row : gmap string string) : Prop :=
  dom row = ({["local"; "remote"; "status"]} : gset string) /\
  forall (k v : string), row !! k = Some v -> trimmed v.

(** ** [win_unc.sanitizors] *)

Module Sanitizors.

Definition dquote : ascii := ascii_of_nat 34.
Definition backslash : ascii := ascii_of_nat 92.

(** [c in chars] *)
Fixpoint mem_char (c : ascii) (chars : string) : bool :=
  match chars with
  | "" => false
  | String d rest => (Ascii.eqb c d || mem_char c rest)%bool
  end.

(** [s.translate(None, deletechars)]: [s] without the characters that occur
    in [deletechars]. *)
Fixpoint translate_delete (s deletechars : string) : string :=
  match s with
  | "" => ""
  | String c t =>
      if mem_char c deletechars then translate_delete t deletechars
      else String c (translate_delete t deletechars)
  end.

(** [s.replace(old, new)] for a one-character [old]. *)
Fixpoint replace_char (old : ascii) (new : string) (s : string) : string :=
  match s with
  | "" => ""
  | String c t =>
      if Ascii.eqb c old then new ++ replace_char old new t
      else String c (replace_char old new t)
  end.

(** A backslash and a double quote, the replacement text. *)
Definition escaped_quote : string := String backslash (String dquote "").

Definition sanitize_for_shell (s : string) : string :=
  replace_char dquote escaped_quote s.

(** The characters deleted from a logon name: the double quote, the
    fourteen characters that follow and the NUL character. *)
Definition username_deletechars : string :=
  String dquote "/[]:;|=,+*?<>" ++ String zero "".

Definition sanitize_username (name : string) : string :=
  translate_delete name username_deletechars.

(** [''.join(map(chr, range(0, 31)))] *)
Definition control_chars : string :=
  string_of_list_ascii (List.map ascii_of_nat (seq 0 31)).

(** The seven printable characters deleted from a path; the double quote is
    the third. *)
Definition path_specials : string := "<>" ++ String dquote "/|?*".

Definition path_deletechars : string := path_specials ++ control_chars.

Definition sanitize_path (path : string) : string :=
  translate_delete path path_deletechars.

Definition sanitize_unc_path (path : string) : string :=
  translate_delete (sanitize_path path) ":".

(** [':\\'], a colon and a backslash. *)
Definition file_name_deletechars : string := String ":" (String backslash "").

Definition sanitize_file_name (file_name : string) : string :=
  translate_delete (sanitize_path file_name) file_name_deletechars.

(** None of the characters of [chars] occurs in [s]. *)
Definition free_of (chars s : string) : bool :=
  PyStr.all_chars (fun c => negb (mem_char c chars)) s.

(** The number of occurrences of [c] in [s]. *)
Fixpoint count_char (c : ascii) (s : string) : nat :=
  match s with
  | "" => O
  | String d t => ((if Ascii.eqb d c then 1 else 0) + count_char c t)%nat
  end.

(** Every double quote of [s] stands right after a backslash; [escaped] tells
    whether the character before [s] is a backslash. *)
Fixpoint quotes_escaped (escaped : bool) (s : string) : bool :=
  match s with
  | "" => true
  | String c t =>
      ((negb (Ascii.eqb c dquote) || escaped)
       && quotes_escaped (Ascii.eqb c backslash) t)%bool
  end.

End Sanitizors.

(** ** Further notions used in the properties *)

(** [s] with every line feed preceded by a carriage return. *)
Fixpoint crlf (s : string) : string :=
  match s with
  | "" => ""
  | String c t =>
      if Ascii.eqb c newline
      then String (ascii_of_nat 13) (String c (crlf t))
      else String c (crlf t)
  end.

(** [row] passes the three criteria, without raising. *)
Definition row_selected (local remote status : option string)
    (row : gmap string string) : bool :=
  match row_matches local remote status row with
  | Ok true => true
  | _ => false
  end.

(** A body line that can start a row. *)
Definition starts_row (line : string) : bool :=
  negb (PyStr.startswith line " ").

(** The set of the new names of a key map. *)
Definition new_keys (key_map : list (string * string)) : gset string :=
  list_to_set (List.map snd key_map).

(** What the three criteria ask of a row whose values are [local_value],
    [remote_value] and [status_value]. *)
Definition values_pass (local remote status : option string)
    (local_value remote_value status_value : string) : bool :=
  (match criterion_given local with
   | Some l => drive_letters_equal l local_value
   | None => true
   end
   && match criterion_given remote with
      | Some r => remote_paths_equal r remote_value
      | None => true
      end
   && match criterion_given status with
      | Some s => String.eqb (PyStr.lower s) (PyStr.lower status_value)
      | None => true
      end)%bool.

(** The same on a row, a missing value read as the empty string. *)
Definition row_passes (local remote status : option string)
    (row : gmap string string) : bool :=
  values_pass local remote status
    (default "" (row !! "local")) (default "" (row !! "remote"))
    (default "" (row !! "status")).

(** A criterion is given and [row] has no value under its key. *)
Definition lacks_needed_key (local remote status : option string)
    (row : gmap string string) : Prop :=
  (is_Some (criterion_given local) /\ row !! "local" = None) \/
  (is_Some (criterion_given remote) /\ row !! "remote" = None) \/
  (is_Some (criterion_given status) /\ row !! "status" = None).

(** * Properties *)

Example split_example :
  PyStr.split "  Status   Local  Remote " = ["Status"; "Local"; "Remote"].
Proof. reflexivity. Qed.

Example slice_example : PyStr.slice "abcdefgh" (Some (-5)) None = "defgh".
Proof. reflexivity. Qed.

(** ** Strings *)

Section StringFacts.

Import PyStr.

Lemma startswith_nil_any (s : string) : startswith s "" = true.
Proof. destruct s; reflexivity. Qed.

Lemma app_nil_l (s : string) : "" ++ s = s.
Proof. reflexivity. Qed.

Lemma app_cons (c : ascii) (a b : string) : String c a ++ b = String c (a ++ b).
Proof. reflexivity. Qed.

Lemma append_nil_r (s : string) : s ++ "" = s.
Proof.
  induction s as [|c t IH]; [reflexivity|]. now rewrite app_cons, IH.
Qed.

Lemma append_assoc (a b c : string) : (a ++ b) ++ c = a ++ (b ++ c).
Proof.
  induction a as [|x a IH]; [reflexivity|]. now rewrite !app_cons, IH.
Qed.


Lemma startswith_app (p r : string) : startswith (p ++ r) p = true.
Proof.
  induction p as [|a p IH]; [apply startswith_nil_any|].
  rewrite app_cons. simpl. now rewrite Ascii.eqb_refl.
Qed.

Lemma startswith_inv (s p : string) :
  startswith s p = true -> exists r, s = p ++ r.
Proof.
  revert s; induction p as [|a p IH]; intros s H.
  - exists s; reflexivity.
  - destruct s as [|b s]; simpl in H; [discriminate|].
    destruct (Ascii.eqb a b) eqn:E; [|discriminate].
    apply Ascii.eqb_eq in E; subst b.
    destruct (IH s H) as [r ->]. exists r; reflexivity.
Qed.

Lemma startswith_iff (s p : string) :
  startswith s p = true <-> exists r, s = p ++ r.
Proof.
  split; [apply startswith_inv|]. intros [r ->]. apply startswith_app.
Qed.

Lemma str_drop_app (a b : string) : str_drop (String.length a) (a ++ b) = b.
Proof.
  induction a as [|x a IH]; [reflexivity|]. rewrite app_cons. exact IH.
Qed.



Lemma str_drop_all (s : string) (n : nat) :
  (String.length s <= n)%nat -> str_drop n s = "".
Proof.
  revert n; induction s as [|c t IH]; intros [|n] H; simpl in *;
    try reflexivity; try lia.
  apply IH; lia.
Qed.

Lemma take_drop (n : nat) (s : string) : str_take n s ++ str_drop n s = s.
Proof.
  revert s; induction n as [|n IH]; intros [|c t]; simpl; try reflexivity.
  now rewrite app_cons, IH.
Qed.

(** *** [find] returns the first occurrence *)

Lemma find_first (s sub : string) (n : nat) :
  find s sub = Some n -> first_occurrence s sub n.
Proof.
  revert n; induction s as [|c t IH]; intros n H.
  - destruct sub; simpl in H; [|discriminate].
    injection H as <-. split; [reflexivity | intros j Hj; lia].
  - cbn [find] in H. destruct (startswith (String c t) sub) eqn:E.
    + injection H as <-. split; [exact E | intros j Hj; lia].
    + destruct (find t sub) as [m|] eqn:F; [|discriminate].
      injection H as <-. destruct (IH m eq_refl) as [H1 H2].
      split; [exact H1|]. intros [|j] Hj; [exact E|].
      simpl. apply H2. lia.
Qed.

Lemma find_None (s sub : string) (j : nat) :
  find s sub = None -> startswith (str_drop j s) sub = false.
Proof.
  revert j; induction s as [|c t IH]; intros j H.
  - destruct sub; simpl in H; [discriminate|]. destruct j; reflexivity.
  - cbn [find] in H. destruct (startswith (String c t) sub) eqn:E; [discriminate|].
    destruct (find t sub) eqn:F; [discriminate|].
    destruct j as [|j]; [exact E|]. simpl. now apply IH.
Qed.

Lemma find_is_Some (s sub : string) (j : nat) :
  startswith (str_drop j s) sub = true -> is_Some (find s sub).
Proof.
  intros H. destruct (find s sub) eqn:F; [eauto|].
  rewrite (find_None _ _ j F) in H. discriminate.
Qed.

Lemma first_occurrence_unique (s sub : string) (n m : nat) :
  first_occurrence s sub n -> first_occurrence s sub m -> n = m.
Proof.
  intros [Hn Ln] [Hm Lm].
  destruct (Nat.lt_trichotomy n m) as [H|[H|H]]; [|exact H|].
  - rewrite (Lm n H) in Hn. discriminate.
  - rewrite (Ln m H) in Hm. discriminate.
Qed.

Lemma occurs_in_drop (sub s : string) :
  occurs_in sub s <-> exists j, startswith (str_drop j s) sub = true.
Proof.
  split.
  - intros (b & a & ->). exists (String.length b).
    rewrite str_drop_app. apply startswith_app.
  - intros [j H]. apply startswith_inv in H as [r Hr].
    exists (str_take j s), r. rewrite <- Hr. symmetry. apply take_drop.
Qed.

Lemma contains_iff (sub s : string) :
  contains sub s = true <-> occurs_in sub s.
Proof.
  unfold contains. rewrite occurs_in_drop. split.
  - destruct (find s sub) as [n|] eqn:F; [|discriminate].
    intros _. exists n. apply (find_first _ _ _ F).
  - intros [j H]. destruct (find_is_Some _ _ _ H) as [n ->]. reflexivity.
Qed.

(** *** Stripping *)

Lemma lstrip_by_idem (p : ascii -> bool) (s : string) :
  lstrip_by p (lstrip_by p s) = lstrip_by p s.
Proof.
  induction s as [|c t IH]; simpl; [reflexivity|].
  destruct (p c) eqn:E; [exact IH|]. simpl. now rewrite E.
Qed.

Lemma rstrip_by_cons (p : ascii -> bool) (c : ascii) (t : string) :
  rstrip_by p (String c t) =
  match rstrip_by p t with
  | "" => if p c then "" else String c ""
  | r => String c r
  end.
Proof. reflexivity. Qed.

Lemma rstrip_by_idem (p : ascii -> bool) (s : string) :
  rstrip_by p (rstrip_by p s) = rstrip_by p s.
Proof.
  induction s as [|c t IH]; [reflexivity|].
  rewrite rstrip_by_cons. destruct (rstrip_by p t) as [|a r] eqn:R.
  - destruct (p c) eqn:E; simpl; [reflexivity | now rewrite E].
  - rewrite rstrip_by_cons, IH. reflexivity.
Qed.

Lemma rstrip_by_lstrip_by (p : ascii -> bool) (s : string) :
  rstrip_by p s = s -> rstrip_by p (lstrip_by p s) = lstrip_by p s.
Proof.
  induction s as [|c t IH]; intros H; simpl; [reflexivity|].
  destruct (p c) eqn:E; [|exact H].
  apply IH. simpl in H. destruct (rstrip_by p t) as [|a r] eqn:R.
  - rewrite E in H. discriminate.
  - now injection H.
Qed.

Lemma strip_trimmed (s : string) : trimmed (strip s).
Proof.
  split; unfold strip, lstrip, rstrip.
  - apply lstrip_by_idem.
  - apply rstrip_by_lstrip_by, rstrip_by_idem.
Qed.



(** *** Whitespace splitting *)

Lemma split_cons (c : ascii) (t : string) :
  split (String c t) =
  if isspace c then split t
  else match t with
       | "" => [String c ""]
       | String d _ =>
           if isspace d then String c "" :: split t
           else match split t with
                | w :: ws => String c w :: ws
                | [] => [String c ""]
                end
       end.
Proof. reflexivity. Qed.

Lemma split_head (t : string) (c : ascii) :
  isspace c = false ->
  exists w ws, split (String c t) = String c w :: ws /\ startswith t w = true.
Proof.
  revert c; induction t as [|d t IH]; intros c Hc.
  - exists "", []. simpl. now rewrite Hc.
  - rewrite split_cons, Hc. destruct (isspace d) eqn:Hd.
    + exists "", (split (String d t)). split; reflexivity.
    + destruct (IH d Hd) as (w & ws & -> & Hw).
      exists (String d w), ws. split; [reflexivity|].
      simpl. now rewrite Ascii.eqb_refl.
Qed.

Lemma split_occurs (s w : string) :
  In w (split s) -> exists j, startswith (str_drop j s) w = true.
Proof.
  revert w; induction s as [|c t IH]; intros w Hw; [destruct Hw|].
  rewrite split_cons in Hw. destruct (isspace c) eqn:Hc.
  - destruct (IH w Hw) as [j Hj]. exists (S j). exact Hj.
  - destruct t as [|d t'].
    + destruct Hw as [<-|[]]. exists O. simpl. now rewrite Ascii.eqb_refl.
    + destruct (isspace d) eqn:Hd.
      * destruct Hw as [<-|Hw].
        -- exists O. simpl. now rewrite Ascii.eqb_refl.
        -- destruct (IH w Hw) as [j Hj]. exists (S j). exact Hj.
      * destruct (split_head t' d Hd) as (w' & ws & E & Hw').
        rewrite E in Hw, IH. destruct Hw as [<-|Hw].
        -- exists O. simpl. now rewrite !Ascii.eqb_refl.
        -- destruct (IH w (or_intror Hw)) as [j Hj]. exists (S j). exact Hj.
Qed.

Lemma index_of_word (s w : string) :
  In w (split s) ->
  exists n, index s w = Ok (Z.of_nat n) /\ first_occurrence s w n.
Proof.
  intros Hw. destruct (split_occurs s w Hw) as [j Hj].
  destruct (find_is_Some _ _ _ Hj) as [n Hn].
  exists n. unfold index. rewrite Hn. split; [reflexivity|].
  now apply find_first.
Qed.

Lemma split_nonempty (c : ascii) (t : string) :
  isalpha c = true -> split (String c t) <> [].
Proof.
  intros Hc. assert (isspace c = false) as Hs.
  { destruct c as [[] [] [] [] [] [] [] []]; try reflexivity; discriminate. }
  destruct (split_head t c Hs) as (w & ws & -> & _). discriminate.
Qed.

End StringFacts.

(** ** The sequence helpers *)

Section SequenceFacts.

Context {A : Type}.
Implicit Types (p : A -> bool) (items pre rest : list A).
Local Open Scope list_scope.

Lemma take_drop_while p items :
  Parsing.take_while p items ++ Parsing.drop_while p items = items.
Proof.
  induction items as [|x l IH]; simpl; [reflexivity|].
  destruct (p x); simpl; [now rewrite IH | reflexivity].
Qed.

Lemma take_while_Forall p items :
  Forall (fun x => p x = true) (Parsing.take_while p items).
Proof.
  induction items as [|x l IH]; simpl; [constructor|].
  destruct (p x) eqn:E; constructor; assumption.
Qed.

Lemma drop_while_head p items :
  match Parsing.drop_while p items with
  | [] => True
  | x :: _ => p x = false
  end.
Proof.
  induction items as [|x l IH]; simpl; [exact I|].
  destruct (p x) eqn:E; [exact IH | exact E].
Qed.

Lemma take_while_app p pre rest :
  Forall (fun x => p x = true) pre ->
  match rest with [] => True | x :: _ => p x = false end ->
  Parsing.take_while p (pre ++ rest) = pre.
Proof.
  intros Hpre Hrest. induction Hpre as [|x l Hx _ IH]; simpl.
  - destruct rest as [|y r]; [reflexivity | simpl; now rewrite Hrest].
  - now rewrite Hx, IH.
Qed.

Lemma drop_while_app p pre rest :
  Forall (fun x => p x = true) pre ->
  match rest with [] => True | x :: _ => p x = false end ->
  Parsing.drop_while p (pre ++ rest) = rest.
Proof.
  intros Hpre Hrest. induction Hpre as [|x l Hx _ IH]; simpl.
  - destruct rest as [|y r]; [reflexivity | simpl; now rewrite Hrest].
  - now rewrite Hx, IH.
Qed.

Lemma first_skip p pre rest :
  Forall (fun x => p x = false) pre ->
  Parsing.first p (pre ++ rest) = Parsing.first p rest.
Proof.
  intros H. induction H as [|x l Hx _ IH]; simpl; [reflexivity|].
  now rewrite Hx.
Qed.

Lemma first_None p items :
  Parsing.first p items = None <-> Forall (fun x => p x = false) items.
Proof.
  induction items as [|x l IH]; simpl.
  - split; [constructor | reflexivity].
  - destruct (p x) eqn:E.
    + split; [discriminate | intros H; inversion H; congruence].
    + rewrite IH. split; [now constructor | intros H; now inversion H].
Qed.

Lemma Forall_rev_inv (P : A -> Prop) items :
  Forall P (rev items) -> Forall P items.
Proof. intros H. rewrite <- (rev_involutive items). now apply Forall_rev. Qed.

Lemma rfirst_last p pre x post :
  p x = true -> Forall (fun y => p y = false) post ->
  Parsing.rfirst p (pre ++ x :: post) = Ok x.
Proof.
  intros Hx Hpost. unfold Parsing.rfirst.
  rewrite rev_app_distr. simpl. rewrite <- app_assoc.
  rewrite first_skip by now apply Forall_rev.
  simpl. now rewrite Hx.
Qed.

Lemma rfirst_Err p items (e : exn) :
  Parsing.rfirst p items = Err e <->
  e = FormatError /\ Forall (fun x => p x = false) items.
Proof.
  unfold Parsing.rfirst. destruct (Parsing.first p (rev items)) eqn:F.
  - split; [discriminate|]. intros [_ H].
    apply Forall_rev, first_None in H. congruence.
  - apply first_None, Forall_rev_inv in F. split.
    + intros [= <-]. now split.
    + intros [-> _]. reflexivity.
Qed.

Lemma first_Some p items y :
  Parsing.first p items = Some y ->
  exists a b, items = a ++ y :: b /\ p y = true /\
              Forall (fun z => p z = false) a.
Proof.
  induction items as [|z l IH]; intros H; simpl in H; [discriminate|].
  destruct (p z) eqn:E.
  - injection H as <-. exists [], l. repeat split; [exact E | constructor].
  - destruct (IH H) as (a & b & -> & Hy & Ha).
    exists (z :: a), b. repeat split; [exact Hy | now constructor].
Qed.

Lemma rfirst_Ok p items x :
  Parsing.rfirst p items = Ok x ->
  exists pre post, items = pre ++ x :: post /\ p x = true /\
                   Forall (fun y => p y = false) post.
Proof.
  unfold Parsing.rfirst.
  destruct (Parsing.first p (rev items)) as [y|] eqn:F; [|discriminate].
  intros [= <-]. destruct (first_Some _ _ _ F) as (a & b & E & Hy & Ha).
  exists (rev b), (rev a). split; [|split; [exact Hy | now apply Forall_rev]].
  rewrite <- (rev_involutive items), E, rev_app_distr. simpl.
  now rewrite <- app_assoc.
Qed.

End SequenceFacts.

(** ** Comprehensions that may raise *)

Section MapResult.

Context {A B : Type} (f : A -> result B).
Local Open Scope list_scope.

Lemma map_result_Ok (items : list A) (ys : list B) :
  map_result f items = Ok ys -> Forall2 (fun x y => f x = Ok y) items ys.
Proof.
  revert ys; induction items as [|x l IH]; intros ys H; simpl in H.
  - injection H as <-. constructor.
  - destruct (f x) as [y|e] eqn:Fx; simpl in H; [|discriminate].
    destruct (map_result f l) as [ys'|e] eqn:Fl; simpl in H; [|discriminate].
    injection H as <-. constructor; [exact Fx | now apply IH].
Qed.

Lemma map_result_total (items : list A) :
  (forall x, In x items -> exists y, f x = Ok y) ->
  exists ys, map_result f items = Ok ys.
Proof.
  induction items as [|x l IH]; intros H; simpl.
  - now exists [].
  - destruct (H x (or_introl eq_refl)) as [y ->].
    destruct IH as [ys ->]; [intros z Hz; apply H; now right|].
    now exists (y :: ys).
Qed.

End MapResult.

Lemma lookup_map {A B : Type} (f : A -> B) (l : list A) (i : nat) :
  List.map f l !! i = f <$> l !! i.
Proof.
  revert i; induction l as [|x l IH]; intros [|i]; simpl; try reflexivity.
  apply IH.
Qed.

(** ** Column layout detection *)

Section Layout.

Local Open Scope list_scope.

Lemma column_ends_cons (a b : Z) (starts : list Z) :
  column_ends (a :: b :: starts) = Some (b - 1) :: column_ends (b :: starts).
Proof. reflexivity. Qed.

Lemma layout_of_zip3 (names : list string) (starts : list Z) :
  List.length names = List.length starts ->
  let cols := List.map mk_column (zip3 names starts (column_ends starts)) in
  List.map name cols = names /\ List.map start cols = starts /\
  forall i c, cols !! i = Some c ->
              end_ c = (fun c' => start c' - 1) <$> cols !! S i.
Proof.
  revert starts; induction names as [|n ns IH]; intros [|a starts] Hlen;
    try discriminate.
  - simpl. repeat split. intros i c H. destruct i; discriminate.
  - destruct starts as [|b starts].
    + destruct ns; [|discriminate]. simpl. repeat split.
      intros [|i] c H; [|destruct i; discriminate].
      injection H as <-. reflexivity.
    + destruct ns as [|n' ns]; [discriminate|].
      rewrite column_ends_cons.
      specialize (IH (b :: starts) ltac:(simpl in *; lia)).
      cbv zeta in IH. destruct IH as (IH1 & IH2 & IH3).
      change (zip3 (n :: n' :: ns) (a :: b :: starts)
                (Some (b - 1) :: column_ends (b :: starts)))
        with ((n, a, Some (b - 1))
              :: zip3 (n' :: ns) (b :: starts) (column_ends (b :: starts))).
      cbv zeta. rewrite !map_cons.
      set (L := List.map mk_column
                  (zip3 (n' :: ns) (b :: starts) (column_ends (b :: starts)))) in *.
      rewrite IH1, IH2. repeat split. intros [|i] c H.
      * injection H as <-.
        change ((mk_column (n, a, Some (b - 1)) :: L) !! 1%nat) with (L !! 0%nat).
        destruct L as [|c' cs]; [discriminate|].
        simpl in IH2. injection IH2 as Hb _. simpl. now rewrite Hb.
      * apply (IH3 i c H).
Qed.

Lemma columns_of_heading_spec (h : string) :
  exists cols,
    columns_of_heading h = Ok cols /\
    List.map name cols = PyStr.split h /\
    forall i c, cols !! i = Some c ->
      (exists n, start c = Z.of_nat n /\ first_occurrence h (name c) n) /\
      end_ c = (fun c' => start c' - 1) <$> cols !! S i.
Proof.
  unfold columns_of_heading.
  destruct (map_result_total (fun name => PyStr.index h name) (PyStr.split h))
    as [starts Hs].
  { intros w Hw. destruct (index_of_word h w Hw) as (n & Hn & _). eauto. }
  rewrite Hs. simpl. apply map_result_Ok in Hs.
  pose proof (Forall2_length _ _ _ Hs) as Hlen.
  destruct (layout_of_zip3 _ _ Hlen) as (H1 & H2 & H3).
  eexists. split; [reflexivity|]. split; [exact H1|].
  intros i c Hc. split; [|now apply H3].
  assert (PyStr.split h !! i = Some (name c)) as Hn.
  { rewrite <- H1, lookup_map. now rewrite Hc. }
  assert (starts !! i = Some (start c)) as Hst.
  { rewrite <- H2, lookup_map. now rewrite Hc. }
  pose proof (Forall2_lookup_lr _ _ _ _ _ _ Hs Hn Hst) as Hidx.
  simpl in Hidx.
  destruct (index_of_word h (name c)) as (n & Hn' & Hfirst).
  { apply list_elem_of_In. eapply list_elem_of_lookup_2. exact Hn. }
  exists n. split; [congruence | exact Hfirst].
Qed.

End Layout.

Lemma not_separator_iff (x : string) :
  Parsing.not_ is_line_separator x = true <-> is_line_separator x = false.
Proof. unfold Parsing.not_. destruct (is_line_separator x); simpl; split; congruence. Qed.

Lemma header_lines (head rest : list string) :
  Forall (fun x => is_line_separator x = false) head ->
  match rest with [] => True | sep :: _ => is_line_separator sep = true end ->
  Parsing.take_while (Parsing.not_ is_line_separator) (head ++ rest)%list = head /\
  Parsing.drop_while (Parsing.not_ is_line_separator) (head ++ rest)%list = rest.
Proof.
  intros Hhead Hrest.
  assert (Forall (fun x => Parsing.not_ is_line_separator x = true) head) as H1.
  { eapply Forall_impl; [exact Hhead|]. intros x Hx. now apply not_separator_iff. }
  assert (match rest with
          | [] => True
          | x :: _ => Parsing.not_ is_line_separator x = false
          end) as H2.
  { destruct rest as [|x r]; [exact I|]. unfold Parsing.not_. now rewrite Hrest. }
  split; [now apply take_while_app | now apply drop_while_app].
Qed.

(** C6, as amended: the header line is the last line, among those before the
    first separator line, whose first character is alphabetic; the column
    names are its whitespace-separated words in order, each start offset is
    the index of the first occurrence of the name in the header line, each
    end offset is one less than the start of the next column, and the last
    column has no end offset. *)
Theorem get_columns_layout (pre : list string) (h : string) (post rest : list string) :
  Forall (fun x => is_line_separator x = false) (pre ++ h :: post)%list ->
  match rest with [] => True | sep :: _ => is_line_separator sep = true end ->
  is_heading h = true ->
  Forall (fun x => is_heading x = false) post ->
  exists cols,
    get_columns ((pre ++ h :: post) ++ rest)%list = Ok cols /\
    List.map name cols = PyStr.split h /\
    forall i c, cols !! i = Some c ->
      (exists n, start c = Z.of_nat n /\ first_occurrence h (name c) n) /\
      end_ c = (fun c' => start c' - 1) <$> cols !! S i.
Proof.
  intros Hhead Hrest Hh Hpost.
  destruct (header_lines _ _ Hhead Hrest) as [Htake _].
  destruct (columns_of_heading_spec h) as (cols & Hcols & Hspec).
  exists cols. split; [|exact Hspec].
  unfold get_columns. rewrite Htake.
  rewrite (rfirst_last is_heading pre h post Hh Hpost). exact Hcols.
Qed.

Lemma get_columns_layout_witness :
  exists cols,
    get_columns
      (["New connections will be remembered."; "";
        "Status       Local     Remote                    Network"]
       ++ ["-------------------------------------------"; "OK           X:"])%list
    = Ok cols /\
    List.map name cols
    = PyStr.split "Status       Local     Remote                    Network" /\
    forall i c, cols !! i = Some c ->
      (exists n, start c = Z.of_nat n /\
         first_occurrence "Status       Local     Remote                    Network"
           (name c) n) /\
      end_ c = (fun c' => start c' - 1) <$> cols !! S i.
Proof.
  apply (get_columns_layout
           ["New connections will be remembered."; ""]
           "Status       Local     Remote                    Network" []
           ["-------------------------------------------"; "OK           X:"]).
  - repeat constructor.
  - reflexivity.
  - reflexivity.
  - constructor.
Defined.

(** C6, as stated, fails: of the lines before the separator, [" note"] is the
    last whose first non-space character is alphabetic, but the layout is
    read from the line above it, whose first character is alphabetic. *)
Lemma header_by_first_nonspace_counterexample :
  let lines := ["Status Local Remote"; " note"; "-------------------"] in
  let head := Parsing.take_while (Parsing.not_ is_line_separator) lines in
  Parsing.rfirst is_heading_by_the_letter head = Ok " note" /\
  Parsing.rfirst is_heading head = Ok "Status Local Remote" /\
  get_columns lines = columns_of_heading "Status Local Remote" /\
  get_columns lines <> columns_of_heading " note".
Proof. repeat split. discriminate. Qed.

(** ** The body of the table *)

Lemma is_last_line_iff (x : string) :
  is_last_line x = true <-> x <> "" /\ x <> LAST_TABLE_LINE.
Proof.
  unfold is_last_line. destruct x as [|c t].
  - simpl. split; [discriminate | intros [H _]; now elim H].
  - cbn [PyStr.truthy andb]. destruct (String.eqb_spec (String c t) LAST_TABLE_LINE) as [E|E].
    + simpl. split; [discriminate | intros [_ H]; now elim H].
    + simpl. split; [intros _; split; [discriminate | exact E] | reflexivity].
Qed.

(** C5, as amended: the body is made of the lines after the first separator
    line, up to but excluding the first line that is empty or equal to
    [LAST_TABLE_LINE], or up to the end of the input when there is no such
    line; without a separator line the body is empty. *)
Theorem get_body_extent :
  (forall lines : list string,
      Forall (fun x => is_line_separator x = false) lines -> get_body lines = []) /\
  (forall (pre : list string) (sep : string) (body rest : list string),
      Forall (fun x => is_line_separator x = false) pre ->
      is_line_separator sep = true ->
      Forall (fun x => x <> "" /\ x <> LAST_TABLE_LINE) body ->
      match rest with [] => True | x :: _ => x = "" \/ x = LAST_TABLE_LINE end ->
      get_body (pre ++ sep :: body ++ rest)%list = body).
Proof.
  split.
  - intros lines H. unfold get_body.
    destruct (header_lines lines [] H I) as [_ Hdrop].
    rewrite app_nil_r in Hdrop. now rewrite Hdrop.
  - intros pre sep body rest Hpre Hsep Hbody Hrest. unfold get_body.
    destruct (header_lines pre (sep :: body ++ rest)%list Hpre Hsep) as [_ ->].
    cbn [List.length List.tl].
    assert (Parsing.take_while is_last_line (body ++ rest)%list = body) as Htake.
    { apply take_while_app.
      - eapply Forall_impl; [exact Hbody|]. intros x Hx. now apply is_last_line_iff.
      - destruct rest as [|x r]; [exact I|].
        destruct (is_last_line x) eqn:E; [|reflexivity].
        apply is_last_line_iff in E. destruct E, Hrest; contradiction. }
    destruct (body ++ rest)%list eqn:E.
    + destruct body; [reflexivity | discriminate].
    + exact Htake.
Qed.

Lemma get_body_extent_witness :
  get_body [] = [] /\
  get_body (["Status       Local     Remote"]
            ++ "-----------------------------"
            :: ["OK           X:        \\host\share"]
            ++ [""; "The command completed successfully."])%list
  = ["OK           X:        \\host\share"].
Proof.
  split.
  - apply (proj1 get_body_extent). constructor.
  - apply (proj2 get_body_extent).
    + repeat constructor.
    + reflexivity.
    + repeat constructor; discriminate.
    + left; reflexivity.
Defined.

(** C5, as stated, fails: the body stops at an empty line, so a row after it
    and before the terminator line is left out. *)
Lemma body_stops_at_empty_line_counterexample :
  let lines := ["Status       Local     Remote";
                "-----------------------------";
                "OK           X:        \\host\share";
                "";
                "OK           Y:        \\host\other";
                "The command completed successfully."] in
  body_by_the_letter lines
  = ["OK           X:        \\host\share"; ""; "OK           Y:        \\host\other"] /\
  get_body lines = ["OK           X:        \\host\share"] /\
  get_body lines <> body_by_the_letter lines.
Proof. repeat split. discriminate. Qed.


(** ** Filtering rows *)

Lemma get_matching_rows_loop_ext (l r s l' r' s' : option string)
    (todo acc : list (gmap string string)) :
  (forall row, row_matches l r s row = row_matches l' r' s' row) ->
  get_matching_rows_loop l r s todo acc = get_matching_rows_loop l' r' s' todo acc.
Proof.
  intros H. revert acc; induction todo as [|row rest IH]; intros acc; simpl.
  - reflexivity.
  - rewrite H. destruct (row_matches l' r' s' row); simpl; [apply IH | reflexivity].
Qed.

Lemma get_matching_rows_loop_unset (todo acc : list (gmap string string)) :
  get_matching_rows_loop None None None todo acc = Ok (acc ++ todo)%list.
Proof.
  revert acc; induction todo as [|row rest IH]; intros acc; simpl.
  - now rewrite app_nil_r.
  - rewrite IH. now rewrite <- app_assoc.
Qed.

(** C10: an empty string given as the [local], [remote] or [status]
    criterion is not truthy, so it behaves as the criterion left unset; with
    all three empty every row is returned. *)
Theorem empty_criterion_is_unset (self : NetUseTable) (local remote status : option string) :
  get_matching_rows self (Some "") remote status
  = get_matching_rows self None remote status /\
  get_matching_rows self local (Some "") status
  = get_matching_rows self local None status /\
  get_matching_rows self local remote (Some "")
  = get_matching_rows self local remote None /\
  get_matching_rows self (Some "") (Some "") (Some "") = Ok (rows self).
Proof.
  unfold get_matching_rows. repeat split.
  - now apply get_matching_rows_loop_ext.
  - now apply get_matching_rows_loop_ext.
  - now apply get_matching_rows_loop_ext.
  - rewrite (get_matching_rows_loop_ext _ _ _ None None None) by reflexivity.
    apply get_matching_rows_loop_unset.
Qed.

Lemma normalize_remote_path_keeps_suffix (path : string) :
  PyStr.endswith (PyStr.lower path) ipc_suffix = true ->
  normalize_remote_path path = ipc_suffix.
Proof.
  intros H. unfold normalize_remote_path. rewrite H.
  unfold PyStr.endswith in H. apply andb_prop in H as [Hlen Heq].
  apply Nat.leb_le in Hlen. apply String.eqb_eq in Heq.
  set (p := PyStr.lower path) in *. change (String.length ipc_suffix) with 5%nat in *.
  unfold PyStr.slice, PyStr.clip, PyStr.len.
  change (-5 <? 0) with true. cbv iota.
  replace (Z.max 0 (-5 + Z.of_nat (String.length p)))
    with (Z.of_nat (String.length p - 5)) by lia.
  rewrite Nat2Z.id, Heq.
  replace (Z.to_nat (Z.of_nat (String.length p) - Z.of_nat (String.length p - 5)))
    with 5%nat by lia.
  reflexivity.
Qed.

(** C1 at its own example: the criterion [\\host\ipc$] is normalized to the
    five characters [\ipc$] and not to the host [\\host], so the row whose
    remote value is [\\host] is not returned. *)
Theorem ipc_criterion_misses_host_row :
  normalize_remote_path "\\host\ipc$" = "\ipc$" /\
  normalize_remote_path "\\host" = "\\host" /\
  remote_paths_equal "\\host\ipc$" "\\host" = false /\
  get_matching_rows (mkNetUseTable [host_row]) None (Some "\\host\ipc$") None = Ok [].
Proof. repeat split; vm_compute; reflexivity. Qed.

(** ** The address parser *)

Section AddressFacts.

Import UncDirectory.

Lemma split_first_None (s : string) :
  no_colon s = true -> split_first ":" s = None.
Proof.
  induction s as [|c t IH]; intros H; simpl in *; [reflexivity|].
  apply andb_prop in H as [Hc Ht]. unfold is_colon in Hc.
  destruct (Ascii.eqb c ":"); [discriminate|]. now rewrite IH.
Qed.

Lemma split_first_app (user pass : string) :
  no_colon user = true -> split_first ":" (user ++ ":" ++ pass) = Some (user, pass).
Proof.
  induction user as [|c t IH]; intros H.
  - reflexivity.
  - simpl in H. apply andb_prop in H as [Hc Ht]. unfold is_colon in Hc.
    rewrite app_cons. simpl. destruct (Ascii.eqb c ":"); [discriminate|].
    now rewrite IH.
Qed.

Lemma find_cons_None (c : ascii) (t sub : string) :
  PyStr.find (String c t) sub = None ->
  PyStr.startswith (String c t) sub = false /\ PyStr.find t sub = None.
Proof.
  cbn [PyStr.find]. destruct (PyStr.startswith (String c t) sub); [discriminate|].
  destruct (PyStr.find t sub); [discriminate|]. now split.
Qed.

Lemma rsplit_unc_None (s : string) :
  ~ occurs_in unc_mark s -> rsplit_unc s = None.
Proof.
  intros H. assert (PyStr.find s unc_mark = None) as F.
  { destruct (PyStr.find s unc_mark) eqn:F; [|reflexivity].
    elim H. apply contains_iff. unfold PyStr.contains. now rewrite F. }
  clear H. induction s as [|c t IH]; [reflexivity|].
  apply find_cons_None in F as [F1 F2]. cbn [rsplit_unc].
  now rewrite (IH F2), F1.
Qed.

Lemma rsplit_unc_app (before after : string) :
  PyStr.startswith after "\\" = true ->
  ~ occurs_in unc_mark after ->
  rsplit_unc (before ++ "@" ++ after) = Some (before, after).
Proof.
  intros Hpath Hlast. apply rsplit_unc_None in Hlast.
  induction before as [|c t IH].
  - change ("" ++ "@" ++ after) with (String "@" after).
    cbn [rsplit_unc]. rewrite Hlast.
    change (PyStr.startswith (String "@" after) unc_mark)
      with (PyStr.startswith after "\\").
    now rewrite Hpath.
  - rewrite app_cons. cbn [rsplit_unc]. now rewrite IH.
Qed.

(** C2: the address is split at the last ['@'] that is immediately followed
    by the UNC prefix; the text before it is parsed as credentials and the
    text after it is the path.  Without such an ['@'] the whole string is
    the path and there are no credentials.  On ["user::@\\@\\path"] the path
    is ["\\path"], the username ["user"] and the password [":@\\"]. *)
Theorem get_unc_directory_from_string_split :
  (forall creds_part path_part : string,
      PyStr.startswith path_part "\\" = true ->
      ~ occurs_in "@\\" path_part ->
      get_unc_directory_from_string (creds_part ++ "@" ++ path_part)
      = mkUncDirectory path_part (get_creds_from_string creds_part)) /\
  (forall s : string,
      ~ occurs_in "@\\" s ->
      get_unc_directory_from_string s = UncDirectory_init s None None) /\
  get_unc_directory_from_string "user::@\\@\\path"
  = UncDirectory_init "\\path" (Some "user") (Some ":@\\").
Proof.
  split; [|split].
  - intros c p Hp Hlast. unfold get_unc_directory_from_string.
    now rewrite rsplit_unc_app.
  - intros s H. unfold get_unc_directory_from_string.
    now rewrite rsplit_unc_None.
  - reflexivity.
Qed.

Lemma not_occurs_by_find (sub s : string) :
  PyStr.contains sub s = false -> ~ occurs_in sub s.
Proof. intros H Ho. apply contains_iff in Ho. congruence. Qed.

Lemma get_unc_directory_from_string_split_witness :
  get_unc_directory_from_string ("::@\\" ++ "@" ++ "\\path")
  = mkUncDirectory "\\path" (get_creds_from_string "::@\\") /\
  get_unc_directory_from_string "\\path\sub" = UncDirectory_init "\\path\sub" None None.
Proof.
  split.
  - apply (proj1 get_unc_directory_from_string_split).
    + reflexivity.
    + apply not_occurs_by_find. reflexivity.
  - apply (proj1 (proj2 get_unc_directory_from_string_split)).
    apply not_occurs_by_find. reflexivity.
Defined.

Lemma address_tests_pass :
  passes get_unc_directory_from_string test_get_unc_directory_from_string.
Proof. repeat constructor. Qed.

Lemma credential_tests_pass :
  passes get_creds_from_string test_get_creds_from_string.
Proof. repeat constructor. Qed.

(** C7, as amended: a non-empty credential text is split on its first colon;
    the text before the colon is the username, absent when that text is
    empty; when there is a colon, everything after the first one is the
    password, possibly empty; without a colon the whole text is the username
    and the password is absent. *)
Theorem get_creds_from_string_split (s : string) :
  s <> "" ->
  (forall user pass : string,
      no_colon user = true -> s = user ++ ":" ++ pass ->
      get_creds_from_string s
      = mkUncCredentials (match user with "" => None | _ => Some user end)
                         (Some pass)) /\
  (no_colon s = true -> get_creds_from_string s = mkUncCredentials (Some s) None).
Proof.
  intros Hs. split.
  - intros user pass Hu ->. unfold get_creds_from_string.
    rewrite split_first_app by exact Hu. now destruct user.
  - intros Hn. unfold get_creds_from_string. rewrite split_first_None by exact Hn.
    destruct s; [now elim Hs | reflexivity].
Qed.

Lemma get_creds_from_string_split_witness :
  get_creds_from_string "user::" = mkUncCredentials (Some "user") (Some ":").
Proof.
  apply (proj1 (get_creds_from_string_split "user::" ltac:(discriminate))
           "user" ":"); reflexivity.
Defined.

(** C7, as stated, fails on [":pass"]: the empty text before the colon gives
    an absent username, as [test_get_creds_from_string] asserts, and not the
    empty string as username. *)
Lemma empty_username_counterexample :
  get_creds_by_the_letter ":pass" = mkUncCredentials (Some "") (Some "pass") /\
  get_creds_from_string ":pass" = mkUncCredentials None (Some "pass") /\
  In (":pass", mkUncCredentials None (Some "pass")) test_get_creds_from_string /\
  username (get_creds_from_string ":pass") <> Some "" /\
  ~ passes get_creds_by_the_letter test_get_creds_from_string.
Proof.
  repeat split.
  - simpl. tauto.
  - discriminate.
  - intros H. unfold passes in H. rewrite List.Forall_forall in H.
    specialize (H (":pass", mkUncCredentials None (Some "pass"))).
    simpl in H. assert (get_creds_by_the_letter ":pass"
                        = mkUncCredentials None (Some "pass")) as E by (apply H; tauto).
    discriminate E.
Qed.

End AddressFacts.


(** ** Rows *)

Section RowFacts.

Local Open Scope list_scope.

Lemma raw_dict_fold_lookup (line : string) (cols : list NetUseColumn)
    (acc : gmap string string) (k v : string) :
  fold_left (fun d column => <[name column := extract column line]> d) cols acc !! k
  = Some v ->
  acc !! k = Some v \/ exists c, In c cols /\ name c = k /\ v = extract c line.
Proof.
  revert acc; induction cols as [|c cols IH]; intros acc H; simpl in H.
  - now left.
  - destruct (IH _ H) as [H1|(c' & Hin & Hn & Hv)].
    + destruct (decide (name c = k)) as [E|E].
      * rewrite E, lookup_insert_eq in H1. injection H1 as <-.
        right. exists c. split; [now left | now split].
      * rewrite lookup_insert_ne in H1 by exact E. now left.
    + right. exists c'. split; [now right | now split].
Qed.

Lemma raw_dict_fold_is_Some (line : string) (cols : list NetUseColumn)
    (acc : gmap string string) (k : string) :
  is_Some (acc !! k) \/ In k (List.map name cols) ->
  is_Some (fold_left (fun d column => <[name column := extract column line]> d)
             cols acc !! k).
Proof.
  revert acc; induction cols as [|c cols IH]; intros acc H; simpl in *.
  - destruct H as [H|[]]. exact H.
  - apply IH. destruct (decide (name c = k)) as [E|E].
    + left. rewrite E, lookup_insert_eq. eauto.
    + destruct H as [H|[H|H]]; [|contradiction|now right].
      left. now rewrite lookup_insert_ne.
Qed.

Lemma raw_dict_trimmed (line : string) (cols : list NetUseColumn) (k v : string) :
  raw_dict line cols !! k = Some v -> trimmed v.
Proof.
  intros H. apply raw_dict_fold_lookup in H as [H|(c & _ & _ & ->)].
  - rewrite lookup_empty in H. discriminate.
  - apply strip_trimmed.
Qed.

Lemma raw_dict_is_Some (line : string) (cols : list NetUseColumn) (k : string) :
  In k (List.map name cols) -> is_Some (raw_dict line cols !! k).
Proof. intros H. apply raw_dict_fold_is_Some. now right. Qed.

Lemma rekey_dict_standard (d : gmap string string) (v1 v2 v3 : string) :
  d !! "Local" = Some v1 -> d !! "Remote" = Some v2 -> d !! "Status" = Some v3 ->
  rekey_dict d MAP_RAW_COLUMNS_TO_STANDARD_COLUMNS
  = Ok (<["status" := v3]> (<["remote" := v2]> (<["local" := v1]> ∅))).
Proof.
  intros H1 H2 H3. unfold rekey_dict, MAP_RAW_COLUMNS_TO_STANDARD_COLUMNS.
  cbn [rekey_dict_loop]. unfold getitem. rewrite H1, H2, H3. reflexivity.
Qed.

Lemma rekey_dict_inv (d row : gmap string string) :
  rekey_dict d MAP_RAW_COLUMNS_TO_STANDARD_COLUMNS = Ok row ->
  exists v1 v2 v3,
    d !! "Local" = Some v1 /\ d !! "Remote" = Some v2 /\ d !! "Status" = Some v3 /\
    row = <["status" := v3]> (<["remote" := v2]> (<["local" := v1]> ∅)).
Proof.
  unfold rekey_dict, MAP_RAW_COLUMNS_TO_STANDARD_COLUMNS.
  cbn [rekey_dict_loop]. unfold getitem.
  destruct (d !! "Local") as [v1|]; [|discriminate].
  destruct (d !! "Remote") as [v2|]; [|discriminate].
  destruct (d !! "Status") as [v3|]; [|discriminate].
  simpl. intros [= <-]. now exists v1, v2, v3.
Qed.

Lemma rekey_dict_Err (d : gmap string string) (e : exn) :
  rekey_dict d MAP_RAW_COLUMNS_TO_STANDARD_COLUMNS = Err e -> e = KeyError.
Proof.
  unfold rekey_dict, MAP_RAW_COLUMNS_TO_STANDARD_COLUMNS.
  cbn [rekey_dict_loop]. unfold getitem.
  destruct (d !! "Local"); simpl; [|congruence].
  destruct (d !! "Remote"); simpl; [|congruence].
  destruct (d !! "Status"); simpl; [discriminate | congruence].
Qed.

Lemma standard_row_intro (v1 v2 v3 : string) :
  trimmed v1 -> trimmed v2 -> trimmed v3 ->
  standard_row (<["status" := v3]> (<["remote" := v2]> (<["local" := v1]> ∅))).
Proof.
  intros T1 T2 T3. split.
  - rewrite !dom_insert_L, dom_empty_L. set_solver.
  - intros k v H.
    destruct (decide ("status" = k)) as [<-|N3].
    { rewrite lookup_insert_eq in H. now injection H as <-. }
    rewrite lookup_insert_ne in H by exact N3.
    destruct (decide ("remote" = k)) as [<-|N2].
    { rewrite lookup_insert_eq in H. now injection H as <-. }
    rewrite lookup_insert_ne in H by exact N2.
    destruct (decide ("local" = k)) as [<-|N1].
    { rewrite lookup_insert_eq in H. now injection H as <-. }
    rewrite lookup_insert_ne in H by exact N1.
    rewrite lookup_empty in H. discriminate.
Qed.

Lemma parse_singleline_row_standard (line : string) (cols : list NetUseColumn)
    (row : gmap string string) :
  parse_singleline_row line cols = Ok row -> standard_row row.
Proof.
  unfold parse_singleline_row. intros H.
  apply rekey_dict_inv in H as (v1 & v2 & v3 & H1 & H2 & H3 & ->).
  apply standard_row_intro; eapply raw_dict_trimmed; eassumption.
Qed.

Lemma parse_singleline_row_total (line : string) (cols : list NetUseColumn) :
  has_standard_titles cols -> exists row, parse_singleline_row line cols = Ok row.
Proof.
  intros (H1 & H2 & H3). unfold parse_singleline_row.
  destruct (raw_dict_is_Some line cols _ H1) as [v1 E1].
  destruct (raw_dict_is_Some line cols _ H2) as [v2 E2].
  destruct (raw_dict_is_Some line cols _ H3) as [v3 E3].
  rewrite (rekey_dict_standard _ _ _ _ E1 E2 E3). eauto.
Qed.

Lemma parse_singleline_row_Err (line : string) (cols : list NetUseColumn) (e : exn) :
  parse_singleline_row line cols = Err e -> e = KeyError.
Proof. apply rekey_dict_Err. Qed.

(** *** The layout of a two-line row *)

Lemma resolve_index_last_but_one (n : nat) :
  resolve_index (S (S n)) (-2) = Ok n.
Proof.
  unfold resolve_index. change (-2 <? 0) with true. cbv iota.
  replace (-2 + Z.of_nat (S (S n))) with (Z.of_nat n) by lia.
  rewrite Nat2Z.id.
  destruct (Z.leb_spec 0 (Z.of_nat n)); [|lia].
  destruct (Z.ltb_spec (Z.of_nat n) (Z.of_nat (S (S n)))); [reflexivity | lia].
Qed.

Lemma resolve_index_last (n : nat) : resolve_index (S n) (-1) = Ok n.
Proof.
  unfold resolve_index. change (-1 <? 0) with true. cbv iota.
  replace (-1 + Z.of_nat (S n)) with (Z.of_nat n) by lia.
  rewrite Nat2Z.id.
  destruct (Z.leb_spec 0 (Z.of_nat n)); [|lia].
  destruct (Z.ltb_spec (Z.of_nat n) (Z.of_nat (S n))); [reflexivity | lia].
Qed.

Lemma resolve_index_Err (n : nat) (i : Z) (e : exn) :
  resolve_index n i = Err e -> e = IndexError.
Proof.
  unfold resolve_index.
  destruct ((0 <=? _) && (_ <? _))%bool; [discriminate | congruence].
Qed.

Lemma custom_columns_app (line1 : string) (front : list NetUseColumn)
    (c2 c1 : NetUseColumn) :
  custom_columns line1 (front ++ [c2; c1])
  = Ok (front ++ [set_end (PyStr.len line1) c2; set_start (PyStr.len line1 + 1) c1]).
Proof.
  unfold custom_columns.
  assert (forall l : list NetUseColumn,
             List.length l = S (S (List.length front)) ->
             resolve_index (List.length l) (-2) = Ok (List.length front) /\
             resolve_index (List.length l) (-1) = Ok (S (List.length front)))
    as Hidx.
  { intros l ->. split;
      [apply resolve_index_last_but_one | apply resolve_index_last]. }
  destruct (Hidx (front ++ [c2; c1])) as [-> _].
  { rewrite length_app. simpl. lia. }
  cbn [rbind].
  replace (alter (set_end (PyStr.len line1)) (List.length front) (front ++ [c2; c1]))
    with (front ++ [set_end (PyStr.len line1) c2; c1]).
  2:{ rewrite <- (Nat.add_0_r (List.length front)) at 1.
      now rewrite alter_app_r. }
  destruct (Hidx (front ++ [set_end (PyStr.len line1) c2; c1])) as [_ ->].
  { rewrite length_app. simpl. lia. }
  cbn [rbind]. f_equal.
  rewrite <- (Nat.add_1_r (List.length front)).
  now rewrite alter_app_r.
Qed.

Lemma custom_columns_Err (line1 : string) (cols : list NetUseColumn) (e : exn) :
  custom_columns line1 cols = Err e -> e = IndexError.
Proof.
  unfold custom_columns.
  destruct (resolve_index (List.length cols) (-2)) as [i|e1] eqn:E1; simpl.
  - destruct (resolve_index _ (-1)) as [j|e2] eqn:E2; simpl; [discriminate|].
    intros [= <-]. eapply resolve_index_Err, E2.
  - intros [= <-]. eapply resolve_index_Err, E1.
Qed.

Lemma split_last_two {A : Type} (l : list A) :
  (2 <= List.length l)%nat -> exists front a b, l = front ++ [a; b].
Proof.
  intros H. destruct (rev l) as [|b [|a r]] eqn:E.
  - apply (f_equal (@List.length A)) in E. rewrite length_rev in E. simpl in E. lia.
  - apply (f_equal (@List.length A)) in E. rewrite length_rev in E. simpl in E. lia.
  - exists (rev r), a, b. rewrite <- (rev_involutive l), E. simpl.
    now rewrite <- app_assoc.
Qed.

Lemma standard_titles_length (cols : list NetUseColumn) :
  has_standard_titles cols -> (2 <= List.length cols)%nat.
Proof.
  intros (H1 & H2 & _). rewrite <- (length_map name).
  destruct (List.map name cols) as [|a [|b l]]; simpl in *.
  - destruct H1.
  - destruct H1 as [E1|[]], H2 as [E2|[]]. congruence.
  - lia.
Qed.

Lemma custom_columns_titles (line1 : string) (cols custom : list NetUseColumn) :
  custom_columns line1 cols = Ok custom ->
  List.map name custom = List.map name cols.
Proof.
  intros H.
  assert (2 <= List.length cols)%nat as Hlen.
  { unfold custom_columns in H.
    destruct (resolve_index (List.length cols) (-2)) as [i|] eqn:E; [|discriminate].
    unfold resolve_index in E. change (-2 <? 0) with true in E. cbv iota in E.
    destruct (Z.leb_spec 0 (-2 + Z.of_nat (List.length cols))); [lia | discriminate]. }
  destruct (split_last_two cols Hlen) as (front & c2 & c1 & ->).
  rewrite custom_columns_app in H. injection H as <-.
  rewrite !map_app. reflexivity.
Qed.

Lemma parse_multiline_row_standard (line1 line2 : string) (cols : list NetUseColumn)
    (row : gmap string string) :
  parse_multiline_row line1 line2 cols = Ok row -> standard_row row.
Proof.
  unfold parse_multiline_row.
  destruct (custom_columns line1 cols) as [custom|]; simpl; [|discriminate].
  apply parse_singleline_row_standard.
Qed.

Lemma parse_multiline_row_total (line1 line2 : string) (cols : list NetUseColumn) :
  has_standard_titles cols -> exists row, parse_multiline_row line1 line2 cols = Ok row.
Proof.
  intros Ht. unfold parse_multiline_row.
  destruct (split_last_two cols (standard_titles_length cols Ht))
    as (front & c2 & c1 & E).
  destruct (custom_columns line1 cols) as [custom|e] eqn:Hc.
  - simpl. apply parse_singleline_row_total.
    unfold has_standard_titles. now rewrite (custom_columns_titles _ _ _ Hc).
  - rewrite E, custom_columns_app in Hc. discriminate.
Qed.

Lemma parse_multiline_row_Err (line1 line2 : string) (cols : list NetUseColumn)
    (e : exn) :
  parse_multiline_row line1 line2 cols = Err e -> e = KeyError \/ e = IndexError.
Proof.
  unfold parse_multiline_row.
  destruct (custom_columns line1 cols) as [custom|e'] eqn:Hc; simpl.
  - intros H. left. eapply parse_singleline_row_Err, H.
  - intros [= <-]. right. eapply custom_columns_Err, Hc.
Qed.

End RowFacts.


(** ** Row reconstruction *)

Section BuildFacts.

Local Open Scope list_scope.

Lemma build_loop_cons_space (cols : list NetUseColumn) (this next : string)
    (rest : list (string * string)) (t : NetUseTable) :
  PyStr.startswith this " " = true ->
  build_loop cols ((this, next) :: rest) t = build_loop cols rest t.
Proof. intros H. cbn [build_loop]. now rewrite H. Qed.

Lemma build_loop_cons_single (cols : list NetUseColumn) (this next : string)
    (rest : list (string * string)) (t : NetUseTable) :
  PyStr.startswith this " " = false -> PyStr.startswith next " " = false ->
  build_loop cols ((this, next) :: rest) t
  = (let* row := parse_singleline_row this cols in
     build_loop cols rest (add_row t row)).
Proof.
  intros H1 H2. cbn [build_loop]. rewrite H1, H2. cbn [negb].
  now destruct (parse_singleline_row this cols).
Qed.

Lemma build_loop_cons_multi (cols : list NetUseColumn) (this next : string)
    (rest : list (string * string)) (t : NetUseTable) :
  PyStr.startswith this " " = false -> PyStr.startswith next " " = true ->
  build_loop cols ((this, next) :: rest) t
  = (let* row := parse_multiline_row this next cols in
     build_loop cols rest (add_row t row)).
Proof.
  intros H1 H2. cbn [build_loop]. rewrite H1, H2. cbn [negb].
  now destruct (parse_multiline_row this next cols).
Qed.

(** The three ways an iteration of the loop can go. *)
Lemma build_loop_cases (cols : list NetUseColumn) (this next : string)
    (rest : list (string * string)) (t : NetUseTable) :
  build_loop cols ((this, next) :: rest) t = build_loop cols rest t \/
  build_loop cols ((this, next) :: rest) t
  = (let* row := parse_singleline_row this cols in
     build_loop cols rest (add_row t row)) \/
  build_loop cols ((this, next) :: rest) t
  = (let* row := parse_multiline_row this next cols in
     build_loop cols rest (add_row t row)).
Proof.
  destruct (PyStr.startswith this " ") eqn:H1.
  - left. now apply build_loop_cons_space.
  - destruct (PyStr.startswith next " ") eqn:H2.
    + right; right. now apply build_loop_cons_multi.
    + right; left. now apply build_loop_cons_single.
Qed.

Lemma build_loop_rows (cols : list NetUseColumn) (pairs : list (string * string))
    (t t' : NetUseTable) :
  build_loop cols pairs t = Ok t' ->
  Forall standard_row (rows t) -> Forall standard_row (rows t').
Proof.
  revert t; induction pairs as [|[this next] rest IH]; intros t H Ht.
  - injection H as <-. exact Ht.
  - destruct (build_loop_cases cols this next rest t) as [E|[E|E]];
      rewrite E in H; clear E.
    + now apply (IH t).
    + destruct (parse_singleline_row this cols) as [row|] eqn:R; [|discriminate].
      apply (IH _ H). apply Forall_app. split; [exact Ht|].
      constructor; [|constructor]. eapply parse_singleline_row_standard, R.
    + destruct (parse_multiline_row this next cols) as [row|] eqn:R; [|discriminate].
      apply (IH _ H). apply Forall_app. split; [exact Ht|].
      constructor; [|constructor]. eapply parse_multiline_row_standard, R.
Qed.

Lemma build_loop_total (cols : list NetUseColumn) (pairs : list (string * string))
    (t : NetUseTable) :
  has_standard_titles cols -> exists t', build_loop cols pairs t = Ok t'.
Proof.
  intros Hc. revert t; induction pairs as [|[this next] rest IH]; intros t.
  - now exists t.
  - destruct (build_loop_cases cols this next rest t) as [E|[E|E]]; rewrite E.
    + apply IH.
    + destruct (parse_singleline_row_total this cols Hc) as [row ->]. apply IH.
    + destruct (parse_multiline_row_total this next cols Hc) as [row ->]. apply IH.
Qed.

Lemma build_loop_Err (cols : list NetUseColumn) (pairs : list (string * string))
    (t : NetUseTable) (e : exn) :
  build_loop cols pairs t = Err e -> e = KeyError \/ e = IndexError.
Proof.
  revert t; induction pairs as [|[this next] rest IH]; intros t H.
  - discriminate.
  - destruct (build_loop_cases cols this next rest t) as [E|[E|E]];
      rewrite E in H; clear E.
    + now apply (IH t).
    + destruct (parse_singleline_row this cols) as [row|e'] eqn:R.
      * now apply (IH _ H).
      * injection H as <-. left. eapply parse_singleline_row_Err, R.
    + destruct (parse_multiline_row this next cols) as [row|e'] eqn:R.
      * now apply (IH _ H).
      * injection H as <-. eapply parse_multiline_row_Err, R.
Qed.



Lemma pairs_with_next_cons (a : string) (l : list string) (final : string) :
  pairs_with_next (a :: l) final = (a, hd final l) :: pairs_with_next l final.
Proof. destruct l; reflexivity. Qed.




Lemma length_str_drop (n : nat) (a : string) :
  String.length (PyStr.str_drop n a) = (String.length a - n)%nat.
Proof.
  revert a; induction n as [|n IH]; intros [|c a]; simpl; try reflexivity.
  apply IH.
Qed.







(** ** The whole parse *)

Lemma get_columns_Err (lines : list string) (e : exn) :
  get_columns lines = Err e <->
  e = FormatError /\
  Forall (fun x => is_heading x = false)
    (Parsing.take_while (Parsing.not_ is_line_separator) lines).
Proof.
  unfold get_columns.
  destruct (Parsing.rfirst is_heading _) as [h|e'] eqn:R.
  - cbn [rbind]. destruct (columns_of_heading_spec h) as (cols & -> & _).
    split; [discriminate|]. intros [_ H].
    assert (Parsing.rfirst is_heading
              (Parsing.take_while (Parsing.not_ is_line_separator) lines)
            = Err FormatError) as R' by now apply rfirst_Err.
    congruence.
  - cbn [rbind]. apply rfirst_Err in R as [-> R]. split.
    + intros [= <-]. now split.
    + intros [-> _]. reflexivity.
Qed.

Lemma parse_populated_rows (s : string) (cols : list NetUseColumn) :
  get_columns (split_lines s) = Ok cols ->
  has_standard_titles cols ->
  exists table,
    parse_populated_net_use_table s = Ok table /\ Forall standard_row (rows table).
Proof.
  intros Hc Ht. unfold parse_populated_net_use_table. rewrite Hc. cbn [rbind].
  unfold build_net_use_table_from_parts.
  destruct (build_loop_total cols (row_pairs (get_body (split_lines s)))
              NetUseTable_init Ht) as [table Hb].
  exists table. split; [exact Hb|].
  eapply build_loop_rows; [exact Hb | constructor].
Qed.

(** C8: when the detected header carries the titles [Local], [Remote] and
    [Status], the parse succeeds and every row of the table has exactly the
    keys [local], [remote] and [status], each bound to a string without
    whitespace at either end; single-line rows, two-line rows and layouts
    with further columns alike. *)
Theorem parsed_rows_are_standard (s : string) (cols : list NetUseColumn) :
  get_columns (split_lines s) = Ok cols ->
  has_standard_titles cols ->
  (exists table,
      parse_populated_net_use_table s = Ok table /\
      Forall standard_row (rows table)) /\
  (exists table,
      parse_net_use_table s = Ok table /\ Forall standard_row (rows table)).
Proof.
  intros Hc Ht. pose proof (parse_populated_rows s cols Hc Ht) as H.
  split; [exact H|]. unfold parse_net_use_table.
  destruct (PyStr.contains EMPTY_TABLE_INDICATOR s); [|exact H].
  exists NetUseTable_init. split; [reflexivity | constructor].
Qed.

Lemma sample_titles : has_standard_titles sample_layout.
Proof. unfold has_standard_titles. simpl. tauto. Qed.

Lemma parsed_rows_are_standard_witness :
  exists table,
    parse_net_use_table sample_output = Ok table /\ Forall standard_row (rows table).
Proof.
  apply (parsed_rows_are_standard sample_output sample_layout).
  - vm_compute. reflexivity.
  - exact sample_titles.
Defined.

Lemma parse_without_separator (s : string) :
  Forall (fun x => is_line_separator x = false) (split_lines s) ->
  Exists (fun x => is_heading x = true) (split_lines s) ->
  parse_populated_net_use_table s = Ok NetUseTable_init.
Proof.
  intros Hsep Hhead. unfold parse_populated_net_use_table.
  destruct (header_lines (split_lines s) [] Hsep I) as [Htake Hdrop].
  rewrite app_nil_r in Htake, Hdrop.
  assert (exists cols, get_columns (split_lines s) = Ok cols) as [cols ->].
  { unfold get_columns. rewrite Htake.
    destruct (Parsing.rfirst is_heading (split_lines s)) as [h|e] eqn:R.
    - cbn [rbind]. destruct (columns_of_heading_spec h) as (cols & Hcols & _).
      eauto.
    - apply rfirst_Err in R as [_ R].
      apply Exists_exists in Hhead as (x & Hin & Hx).
      rewrite Forall_forall in R. rewrite (R x Hin) in Hx. discriminate. }
  cbn [rbind]. unfold get_body. now rewrite Hdrop.
Qed.

(** C4, as amended: parsing a populated table fails with a [FormatError],
    the error of the header search, exactly when no line whose first
    character is alphabetic stands before the first separator line, or
    anywhere in an input without a separator line; an input that has such a
    line and no separator line at all parses without error, to a table
    without rows; and the parse succeeds whenever the header line found
    carries the titles [Local], [Remote] and [Status]. *)
Theorem parse_populated_failure (s : string) :
  (parse_populated_net_use_table s = Err FormatError <->
   Forall (fun x => is_heading x = false)
     (Parsing.take_while (Parsing.not_ is_line_separator) (split_lines s))) /\
  (Forall (fun x => is_line_separator x = false) (split_lines s) ->
   Exists (fun x => is_heading x = true) (split_lines s) ->
   parse_populated_net_use_table s = Ok NetUseTable_init) /\
  (forall cols,
      get_columns (split_lines s) = Ok cols -> has_standard_titles cols ->
      exists table, parse_populated_net_use_table s = Ok table).
Proof.
  split; [|split].
  - unfold parse_populated_net_use_table.
    destruct (get_columns (split_lines s)) as [cols|e] eqn:Hc.
    + cbn [rbind]. split.
      * intros H. apply build_loop_Err in H as [H|H]; discriminate H.
      * intros H.
        assert (get_columns (split_lines s) = Err FormatError) as Hc'
          by now apply get_columns_Err.
        congruence.
    + cbn [rbind]. apply get_columns_Err in Hc as [-> Hc]. now split.
  - apply parse_without_separator.
  - intros cols Hc Ht.
    destruct (parse_populated_rows s cols Hc Ht) as (table & H & _). eauto.
Qed.

Lemma parse_populated_failure_witness :
  parse_populated_net_use_table ("----" ++ nl ++ "row")%string = Err FormatError /\
  parse_populated_net_use_table ("Name" ++ nl ++ "row")%string = Ok NetUseTable_init /\
  exists table, parse_populated_net_use_table sample_output = Ok table.
Proof.
  split; [|split].
  - apply (proj1 (parse_populated_failure ("----" ++ nl ++ "row")%string)).
    constructor.
  - apply (proj1 (proj2 (parse_populated_failure ("Name" ++ nl ++ "row")%string))).
    + repeat constructor.
    + apply Exists_cons_hd. reflexivity.
  - apply (proj2 (proj2 (parse_populated_failure sample_output)) sample_layout).
    + vm_compute. reflexivity.
    + exact sample_titles.
Defined.

(** C4, as stated, fails: an input with a header line and no separator line
    at all parses, to an empty table; and an input with a header line and a
    separator line whose header lacks the standard titles fails on its first
    row with a [KeyError]. *)
Lemma parse_populated_counterexample :
  Forall (fun x => is_line_separator x = false) (split_lines "Status Local Remote") /\
  PyStr.contains EMPTY_TABLE_INDICATOR "Status Local Remote" = false /\
  parse_populated_net_use_table "Status Local Remote" = Ok NetUseTable_init /\
  split_lines ("Name" ++ nl ++ "----" ++ nl ++ "row")%string = ["Name"; "----"; "row"] /\
  parse_populated_net_use_table ("Name" ++ nl ++ "----" ++ nl ++ "row")%string
  = Err KeyError.
Proof.
  split; [|split; [|split; [|split]]]; try reflexivity.
  repeat constructor.
Qed.

End BuildFacts.

(** ** The column objects and [deepcopy] *)

Section StoreFacts.

Local Open Scope list_scope.

Lemma bind_inv {A B : Type} (m : Store.st A) (k : A -> Store.st B) (h h' : Store.heap) (r : result B) :
  Store.bind m k h = (r, h') ->
  (exists a h1, m h = (Ok a, h1) /\ k a h1 = (r, h')) \/
  (exists e, m h = (Err e, h') /\ r = Err e).
Proof.
  unfold Store.bind. destruct (m h) as [[a|e] h1]; intros H.
  - left. eauto.
  - right. injection H as <- <-. eauto.
Qed.

Lemma load_inv (l : Store.loc) (h h' : Store.heap) (r : result NetUseColumn) :
  Store.load l h = (r, h') ->
  h' = h /\ r = match h !! l with Some c => Ok c | None => Err RuntimeError end.
Proof. unfold Store.load. destruct (h !! l); intros [= <- <-]; now split. Qed.

Lemma alloc_inv (c : NetUseColumn) (h h' : Store.heap) (r : result Store.loc) :
  Store.alloc c h = (r, h') ->
  exists l, r = Ok l /\ h !! l = None /\ h' = <[l := c]> h.
Proof.
  unfold Store.alloc. intros [= <- <-]. eexists. split; [reflexivity|].
  split; [|reflexivity]. apply not_elem_of_dom, is_fresh.
Qed.

Lemma modify_frame (h0 h h' : Store.heap) (l : Store.loc) (f : NetUseColumn -> NetUseColumn)
    (r : result unit) :
  h0 !! l = None -> h0 ⊆ h -> Store.modify l f h = (r, h') -> h0 ⊆ h'.
Proof.
  intros Hl Hsub. unfold Store.modify. destruct (h !! l); intros [= <- <-].
  - now apply insert_subseteq_r.
  - exact Hsub.
Qed.

Lemma item_inv (columns : list Store.loc) (i : Z) (h h' : Store.heap) (r : result Store.loc) :
  Store.item columns i h = (r, h') ->
  h' = h /\ forall l, r = Ok l -> In l columns.
Proof.
  unfold Store.item. destruct (resolve_index (List.length columns) i) as [n|e].
  - destruct (columns !! n) as [l|] eqn:E; intros [= <- <-]; (split; [reflexivity|]).
    + intros l' [= <-]. apply list_elem_of_In. eapply list_elem_of_lookup_2, E.
    + discriminate.
  - intros [= <- <-]. split; [reflexivity | discriminate].
Qed.

(** [deepcopy] only allocates: the objects of the store it starts from are
    all still there, unchanged, and every element of the copy is an object
    that was not in that store. *)
Lemma deepcopy_loop_frame (h0 : Store.heap) (columns : list Store.loc) :
  forall (memo : gmap positive positive) (h h' : Store.heap) (r : result (list Store.loc)),
    h0 ⊆ h ->
    map_Forall (fun _ l' => h0 !! l' = None) memo ->
    Store.deepcopy_loop columns memo h = (r, h') ->
    h0 ⊆ h' /\ forall copies, r = Ok copies -> Forall (fun l' => h0 !! l' = None) copies.
Proof.
  induction columns as [|l rest IH]; intros memo h h' r Hsub Hmemo H.
  - injection H as <- <-. split; [exact Hsub|]. intros copies [= <-]. constructor.
  - cbn [Store.deepcopy_loop] in H. destruct (memo !! l) as [l'|] eqn:M.
    + apply bind_inv in H as [(copies & h1 & H1 & H2)|(e & H1 & ->)].
      * injection H2 as <- <-. destruct (IH _ _ _ _ Hsub Hmemo H1) as [S1 F1].
        split; [exact S1|]. intros ? [= <-].
        constructor; [exact (Hmemo _ _ M) | now apply F1].
      * destruct (IH _ _ _ _ Hsub Hmemo H1) as [S1 _].
        split; [exact S1 | discriminate].
    + apply bind_inv in H as [(c & h1 & H1 & H2)|(e & H1 & ->)].
      2:{ apply load_inv in H1 as [-> _]. split; [exact Hsub | discriminate]. }
      apply load_inv in H1 as [-> _].
      apply bind_inv in H2 as [(l' & h2 & H2 & H3)|(e & H2 & ->)].
      2:{ apply alloc_inv in H2 as (? & ? & _). discriminate. }
      apply alloc_inv in H2 as (? & [= <-] & Hfresh & ->).
      assert (h0 !! l' = None) as Hl' by (eapply lookup_weaken_None; eassumption).
      assert (h0 ⊆ <[l' := c]> h) as Hsub' by now apply insert_subseteq_r.
      assert (map_Forall (fun _ x => h0 !! x = None) (<[l := l']> memo)) as Hmemo'
        by now apply map_Forall_insert_2.
      apply bind_inv in H3 as [(copies & h3 & H3 & H4)|(e & H3 & ->)].
      * injection H4 as <- <-. destruct (IH _ _ _ _ Hsub' Hmemo' H3) as [S1 F1].
        split; [exact S1|]. intros ? [= <-]. constructor; [exact Hl' | now apply F1].
      * destruct (IH _ _ _ _ Hsub' Hmemo' H3) as [S1 _].
        split; [exact S1 | discriminate].
Qed.

Lemma load_all_layout (columns : list Store.loc) (h : Store.heap) :
  Store.load_all columns h
  = (match Store.layout h columns with Some cs => Ok cs | None => Err RuntimeError end, h).
Proof.
  induction columns as [|l rest IH]; [reflexivity|].
  cbn [Store.load_all]. unfold Store.bind, Store.load, Store.layout. cbn [mapM].
  destruct (h !! l) as [c|]; [|reflexivity].
  rewrite IH. unfold Store.layout. cbn.
  destruct (mapM (fun l0 => h !! l0) rest); reflexivity.
Qed.

Lemma parse_singleline_row_layout (line : string) (columns : list Store.loc) (h : Store.heap) :
  Store.parse_singleline_row line columns h
  = (match Store.layout h columns with
     | Some cs => parse_singleline_row line cs
     | None => Err RuntimeError
     end, h).
Proof.
  unfold Store.parse_singleline_row, Store.bind. rewrite load_all_layout.
  destruct (Store.layout h columns); reflexivity.
Qed.

Lemma layout_weaken (h h' : Store.heap) (columns : list Store.loc) (cs : list NetUseColumn) :
  h ⊆ h' -> Store.layout h columns = Some cs -> Store.layout h' columns = Some cs.
Proof.
  intros Hsub. unfold Store.layout. revert cs.
  induction columns as [|l rest IH]; intros cs H; [exact H|].
  cbn [mapM] in *. destruct (h !! l) as [c|] eqn:E; [|discriminate].
  rewrite (lookup_weaken _ _ _ _ E Hsub). cbn in *.
  destruct (mapM (fun l0 => h !! l0) rest) as [cs'|]; [|discriminate].
  now rewrite (IH cs' eq_refl).
Qed.

Lemma parse_multiline_row_subseteq (line1 line2 : string) (columns : list Store.loc)
    (h h' : Store.heap) (r : result (gmap string string)) :
  Store.parse_multiline_row line1 line2 columns h = (r, h') -> h ⊆ h'.
Proof.
  unfold Store.parse_multiline_row. intros H.
  apply bind_inv in H as [(custom & h1 & H1 & H2)|(e & H1 & ->)].
  2:{ eapply deepcopy_loop_frame; [reflexivity | apply map_Forall_empty | exact H1]. }
  destruct (deepcopy_loop_frame h columns ∅ h h1 (Ok custom)) as [S1 F1];
    [reflexivity | apply map_Forall_empty | exact H1 |].
  specialize (F1 custom eq_refl). rewrite List.Forall_forall in F1.
  apply bind_inv in H2 as [(c2 & h2 & H2 & H3)|(e & H2 & ->)].
  2:{ apply item_inv in H2 as [-> _]. exact S1. }
  apply item_inv in H2 as [-> Hc2]. specialize (Hc2 c2 eq_refl).
  apply bind_inv in H3 as [([] & h3 & H3 & H4)|(e & H3 & ->)].
  2:{ eapply modify_frame; [apply F1, Hc2 | exact S1 | exact H3]. }
  assert (h ⊆ h3) as S3
    by (eapply modify_frame; [apply F1, Hc2 | exact S1 | exact H3]).
  apply bind_inv in H4 as [(c1 & h4 & H4 & H5)|(e & H4 & ->)].
  2:{ apply item_inv in H4 as [-> _]. exact S3. }
  apply item_inv in H4 as [-> Hc1]. specialize (Hc1 c1 eq_refl).
  apply bind_inv in H5 as [([] & h5 & H5 & H6)|(e & H5 & ->)].
  2:{ eapply modify_frame; [apply F1, Hc1 | exact S3 | exact H5]. }
  assert (h ⊆ h5) as S5
    by (eapply modify_frame; [apply F1, Hc1 | exact S3 | exact H5]).
  rewrite parse_singleline_row_layout in H6. now injection H6 as _ <-.
Qed.

(** C9: [parse_multiline_row] writes to the copies it makes only.  Every
    object of the store before the call is unchanged after it; the caller's
    list denotes the same names, starts and ends as before; and a single-line
    row read through that list afterwards is read with those offsets. *)
Theorem parse_multiline_row_frame (line1 line2 : string) (columns : list Store.loc)
    (cs : list NetUseColumn) (h h' : Store.heap) (r : result (gmap string string)) :
  Store.layout h columns = Some cs ->
  Store.parse_multiline_row line1 line2 columns h = (r, h') ->
  h ⊆ h' /\
  Store.layout h' columns = Some cs /\
  forall line,
    Store.parse_singleline_row line columns h' = (parse_singleline_row line cs, h').
Proof.
  intros Hl H. pose proof (parse_multiline_row_subseteq _ _ _ _ _ _ H) as Hsub.
  pose proof (layout_weaken _ _ _ _ Hsub Hl) as Hl'.
  split; [exact Hsub|]. split; [exact Hl'|].
  intros line. now rewrite parse_singleline_row_layout, Hl'.
Qed.

Lemma parse_multiline_row_frame_witness :
  let h' :=
    snd (Store.parse_multiline_row
           "Disconnected           \\another.host\with\a\long\path"
           "                                                Microsoft Windows Network"
           Store.sample_columns Store.sample_heap) in
  Store.sample_heap ⊆ h' /\
  Store.layout h' Store.sample_columns = Some sample_layout /\
  forall line,
    Store.parse_singleline_row line Store.sample_columns h'
    = (parse_singleline_row line sample_layout, h').
Proof.
  apply (parse_multiline_row_frame
           "Disconnected           \\another.host\with\a\long\path"
           "                                                Microsoft Windows Network"
           Store.sample_columns sample_layout Store.sample_heap _
           (fst (Store.parse_multiline_row
                   "Disconnected           \\another.host\with\a\long\path"
                   "                                                Microsoft Windows Network"
                   Store.sample_columns Store.sample_heap))).
  - vm_compute. reflexivity.
  - apply surjective_pairing.
Defined.

(** *** The store and the layouts as values *)

Lemma layout_Forall2 (h : Store.heap) (columns : list Store.loc)
    (cs : list NetUseColumn) :
  Store.layout h columns = Some cs <->
  Forall2 (fun l c => h !! l = Some c) columns cs.
Proof. unfold Store.layout. apply mapM_Some. Qed.

Lemma layout_insert (h : Store.heap) (copies : list Store.loc)
    (cs : list NetUseColumn) (n : nat) (l : Store.loc) (c : NetUseColumn)
    (f : NetUseColumn -> NetUseColumn) :
  NoDup copies -> copies !! n = Some l -> h !! l = Some c ->
  Store.layout h copies = Some cs ->
  Store.layout (<[l := f c]> h) copies = Some (alter f n cs).
Proof.
  intros Hnd Hn Hl Hlay. apply layout_Forall2. apply layout_Forall2 in Hlay.
  apply Forall2_same_length_lookup. split.
  - rewrite length_alter. eapply Forall2_length, Hlay.
  - intros i x y Hx Hy. destruct (decide (i = n)) as [->|Hne].
    + assert (x = l) as -> by congruence.
      rewrite list_lookup_alter_eq in Hy.
      pose proof (Forall2_lookup_l _ _ _ _ _ Hlay Hn) as (c' & Hc' & Hlc').
      rewrite Hc' in Hy. simpl in Hy. injection Hy as <-.
      rewrite lookup_insert_eq. congruence.
    + rewrite list_lookup_alter_ne in Hy by congruence.
      assert (x <> l) as Hxl.
      { intros ->. apply Hne. eapply NoDup_lookup; eassumption. }
      rewrite lookup_insert_ne by congruence.
      exact (Forall2_lookup_lr _ _ _ _ _ _ Hlay Hx Hy).
Qed.

(** On a list of distinct objects [deepcopy] succeeds, and its copy is a list
    of distinct new objects with the attributes of the originals. *)
Lemma deepcopy_loop_distinct (columns : list Store.loc) :
  forall (memo : gmap positive positive) (h : Store.heap) (cs : list NetUseColumn),
    NoDup columns ->
    (forall l, In l columns -> memo !! l = None) ->
    Store.layout h columns = Some cs ->
    exists copies h',
      Store.deepcopy_loop columns memo h = (Ok copies, h') /\
      h ⊆ h' /\ NoDup copies /\
      Forall (fun l' => h !! l' = None) copies /\
      Store.layout h' copies = Some cs.
Proof.
  induction columns as [|l rest IH]; intros memo h cs Hnd Hmemo Hlay.
  - injection Hlay as <-. exists [], h.
    repeat split; [reflexivity | constructor | constructor].
  - apply NoDup_cons in Hnd as [Hl Hnd].
    unfold Store.layout in Hlay. cbn [mapM] in Hlay.
    destruct (h !! l) as [c|] eqn:Hc; [|discriminate]. cbn in Hlay.
    destruct (mapM (fun l0 => h !! l0) rest) as [cs'|] eqn:Hrest; [|discriminate].
    injection Hlay as <-.
    cbn [Store.deepcopy_loop]. rewrite (Hmemo l (or_introl eq_refl)).
    unfold Store.bind at 1. unfold Store.load. rewrite Hc.
    unfold Store.bind at 1. unfold Store.alloc.
    set (l' := fresh (dom h)).
    assert (h !! l' = None) as Hfresh by apply not_elem_of_dom, is_fresh.
    assert (h ⊆ <[l' := c]> h) as Hsub by now apply insert_subseteq.
    destruct (IH (<[l := l']> memo) (<[l' := c]> h) cs' Hnd)
      as (copies & h' & Hd & Hsub' & Hnd' & Hfr & Hlay').
    { intros x Hx. rewrite lookup_insert_ne; [apply Hmemo; now right|].
      intros ->. apply Hl. now apply list_elem_of_In. }
    { eapply layout_weaken; [exact Hsub | exact Hrest]. }
    exists (l' :: copies), h'. unfold Store.bind. rewrite Hd.
    split; [reflexivity|]. split; [now transitivity (<[l' := c]> h)|].
    rewrite List.Forall_forall in Hfr.
    assert (~ In l' copies) as Hnotin.
    { intros Hin. specialize (Hfr _ Hin). rewrite lookup_insert_eq in Hfr.
      discriminate. }
    split; [|split].
    + apply NoDup_cons. split; [|exact Hnd'].
      intros Hin. now apply Hnotin, list_elem_of_In.
    + constructor; [exact Hfresh|]. apply List.Forall_forall. intros x Hx.
      eapply lookup_weaken_None; [apply Hfr, Hx | exact Hsub].
    + unfold Store.layout in *. cbn [mapM].
      rewrite (lookup_weaken _ _ l' c (lookup_insert_eq _ _ _) Hsub').
      cbn. now rewrite Hlay'.
Qed.

Lemma resolve_index_lt (n : nat) (i : Z) (k : nat) :
  resolve_index n i = Ok k -> (k < n)%nat.
Proof.
  unfold resolve_index.
  destruct (Z.leb_spec 0 (if i <? 0 then i + Z.of_nat n else i));
    destruct (Z.ltb_spec (if i <? 0 then i + Z.of_nat n else i) (Z.of_nat n));
    cbn [andb]; intros [= <-]. lia.
Qed.

(** An attribute assignment on [copies[i]], with the layout it leaves. *)
Lemma item_modify (h : Store.heap) (copies : list Store.loc) (cs : list NetUseColumn)
    (i : Z) (f : NetUseColumn -> NetUseColumn) (A : Type)
    (k : Store.st A) (k' : list NetUseColumn -> result A) :
  NoDup copies -> Store.layout h copies = Some cs ->
  (forall h1 cs1, Store.layout h1 copies = Some cs1 -> fst (k h1) = k' cs1) ->
  fst (Store.bind (Store.item copies i)
         (fun c => Store.bind (Store.modify c f) (fun _ => k)) h)
  = (let* n := resolve_index (List.length cs) i in k' (alter f n cs)).
Proof.
  intros Hnd Hlay Hk.
  assert (List.length copies = List.length cs) as Hlen.
  { apply layout_Forall2 in Hlay. eapply Forall2_length, Hlay. }
  unfold Store.bind at 1. unfold Store.item. rewrite Hlen.
  destruct (resolve_index (List.length cs) i) as [n|e] eqn:R; [|reflexivity].
  apply resolve_index_lt in R. rewrite <- Hlen in R.
  destruct (lookup_lt_is_Some_2 copies n R) as [l Hl]. rewrite Hl.
  pose proof (proj1 (layout_Forall2 _ _ _) Hlay) as HF.
  destruct (Forall2_lookup_l _ _ _ _ _ HF Hl) as (c & Hc & Hlc).
  unfold Store.bind at 1. unfold Store.modify. rewrite Hlc. cbn [rbind].
  apply Hk. now apply layout_insert.
Qed.

Lemma parse_multiline_row_agrees (line1 line2 : string) (columns : list Store.loc)
    (cs : list NetUseColumn) (h : Store.heap) :
  NoDup columns -> Store.layout h columns = Some cs ->
  fst (Store.parse_multiline_row line1 line2 columns h)
  = parse_multiline_row line1 line2 cs.
Proof.
  intros Hnd Hlay. unfold Store.parse_multiline_row, Store.deepcopy.
  destruct (deepcopy_loop_distinct columns ∅ h cs Hnd) as
    (copies & h1 & Hd & _ & Hnd1 & _ & Hlay1);
    [intros; apply lookup_empty | exact Hlay |].
  unfold Store.bind at 1. rewrite Hd.
  unfold parse_multiline_row, custom_columns.
  rewrite (item_modify h1 copies cs (-2) _ _ _
             (fun cs1 =>
                let* j := resolve_index (List.length cs1) (-1) in
                parse_singleline_row
                  (line1 ++ " " ++ PyStr.strip line2)%string
                  (alter (set_start (PyStr.len line1 + 1)) j cs1)) Hnd1 Hlay1).
  - destruct (resolve_index (List.length cs) (-2)) as [n|]; [|reflexivity].
    cbn [rbind].
    destruct (resolve_index
                (List.length (alter (set_end (PyStr.len line1)) n cs)) (-1));
      reflexivity.
  - intros h2 cs2 Hlay2.
    rewrite (item_modify h2 copies cs2 (-1) _ _ _
               (fun cs3 =>
                  parse_singleline_row
                    (line1 ++ " " ++ PyStr.strip line2)%string cs3) Hnd1 Hlay2).
    + reflexivity.
    + intros h3 cs3 Hlay3. rewrite parse_singleline_row_layout, Hlay3. reflexivity.
Qed.

(** The table built through the store is the table built from the layout as
    a value, and the layout is the same after the loop as before it. *)
Lemma build_loop_agrees (columns : list Store.loc) (cs : list NetUseColumn)
    (pairs : list (string * string)) :
  NoDup columns ->
  forall (t : NetUseTable) (h : Store.heap),
    Store.layout h columns = Some cs ->
    fst (Store.build_loop columns pairs t h) = build_loop cs pairs t /\
    Store.layout (snd (Store.build_loop columns pairs t h)) columns = Some cs.
Proof.
  intros Hnd. induction pairs as [|[this next] rest IH]; intros t h Hlay.
  - split; [reflexivity | exact Hlay].
  - cbn [Store.build_loop build_loop].
    destruct (negb (PyStr.startswith this " ")).
    + destruct (PyStr.startswith next " ").
      * pose proof (parse_multiline_row_agrees this next columns cs h Hnd Hlay) as Hr.
        destruct (Store.parse_multiline_row this next columns h) as [r h1] eqn:Hm.
        pose proof (parse_multiline_row_subseteq _ _ _ _ _ _ Hm) as Hsub.
        pose proof (layout_weaken _ _ _ _ Hsub Hlay) as Hlay1.
        simpl in Hr. subst r. unfold Store.bind at 1 3. unfold Store.bind at 1 2.
        rewrite Hm.
        destruct (parse_multiline_row this next cs) as [row|e]; cbn.
        -- apply IH, Hlay1.
        -- split; [reflexivity | exact Hlay1].
      * unfold Store.bind at 1 3. unfold Store.bind at 1 2.
        rewrite parse_singleline_row_layout, Hlay.
        destruct (parse_singleline_row this cs) as [row|e]; cbn.
        -- apply IH, Hlay.
        -- split; [reflexivity | exact Hlay].
    + unfold Store.bind at 1 2. cbn. apply IH, Hlay.
Qed.

Lemma build_net_use_table_from_parts_agrees (columns : list Store.loc)
    (cs : list NetUseColumn) (body_lines : list string) (h : Store.heap) :
  NoDup columns -> Store.layout h columns = Some cs ->
  fst (Store.build_net_use_table_from_parts columns body_lines h)
  = build_net_use_table_from_parts cs body_lines.
Proof.
  intros Hnd Hlay. now apply build_loop_agrees.
Qed.

End StoreFacts.

(** ** Sanitizers *)

Section SanitizorFacts.

Import Sanitizors.

Lemma mem_char_app (c : ascii) (a b : string) :
  mem_char c (a ++ b) = (mem_char c a || mem_char c b)%bool.
Proof.
  induction a as [|d a IH]; [reflexivity|].
  rewrite app_cons. simpl. rewrite IH. now rewrite orb_assoc.
Qed.

Lemma translate_delete_app (a b chars : string) :
  translate_delete (a ++ b) chars
  = translate_delete a chars ++ translate_delete b chars.
Proof.
  induction a as [|c a IH]; [reflexivity|].
  rewrite app_cons. simpl. destruct (mem_char c chars); [exact IH|].
  now rewrite app_cons, IH.
Qed.

Lemma translate_delete_free (s chars : string) :
  free_of chars (translate_delete s chars) = true.
Proof.
  induction s as [|c t IH]; [reflexivity|]. simpl.
  destruct (mem_char c chars) eqn:E; [exact IH|].
  unfold free_of in *. simpl. now rewrite E, IH.
Qed.

Lemma translate_delete_fixed (s chars : string) :
  translate_delete s chars = s <-> free_of chars s = true.
Proof.
  split.
  - intros <-. apply translate_delete_free.
  - unfold free_of. induction s as [|c t IH]; [reflexivity|]. simpl.
    intros H. apply andb_prop in H as [Hc Ht].
    destruct (mem_char c chars); [discriminate|]. now rewrite IH.
Qed.

Lemma translate_delete_idem (s chars : string) :
  translate_delete (translate_delete s chars) chars = translate_delete s chars.
Proof. apply translate_delete_fixed, translate_delete_free. Qed.

Lemma translate_delete_twice (s chars1 chars2 : string) :
  translate_delete (translate_delete s chars1) chars2
  = translate_delete s (chars1 ++ chars2).
Proof.
  induction s as [|c t IH]; [reflexivity|]. simpl. rewrite mem_char_app.
  destruct (mem_char c chars1); simpl; [exact IH|].
  destruct (mem_char c chars2); [exact IH | now rewrite IH].
Qed.

Lemma translate_delete_ext (s chars1 chars2 : string) :
  (forall c, mem_char c chars1 = mem_char c chars2) ->
  translate_delete s chars1 = translate_delete s chars2.
Proof.
  intros H. induction s as [|c t IH]; [reflexivity|]. simpl.
  now rewrite H, IH.
Qed.

Lemma translate_delete_comm (s chars1 chars2 : string) :
  translate_delete (translate_delete s chars1) chars2
  = translate_delete (translate_delete s chars2) chars1.
Proof.
  rewrite !translate_delete_twice. apply translate_delete_ext.
  intros c. rewrite !mem_char_app. apply orb_comm.
Qed.

Lemma translate_delete_length (s chars : string) :
  (String.length (translate_delete s chars) <= String.length s)%nat.
Proof.
  induction s as [|c t IH]; [reflexivity|]. simpl.
  destruct (mem_char c chars); simpl; lia.
Qed.

Lemma sanitize_unc_path_delete (s : string) :
  sanitize_unc_path s = translate_delete s (path_deletechars ++ ":").
Proof. apply translate_delete_twice. Qed.

Lemma sanitize_file_name_delete (s : string) :
  sanitize_file_name s
  = translate_delete s (path_deletechars ++ file_name_deletechars).
Proof. apply translate_delete_twice. Qed.

(** X21: [sanitize_path] deletes a character exactly when its code is below 31
    or it is one of the seven characters of [path_specials]: the code 31
    itself is kept.  All other characters stay, in their order. *)
Theorem sanitize_path_deletes (c : ascii) (s : string) :
  sanitize_path (String c s)
  = if (Nat.ltb (nat_of_ascii c) 31 || mem_char c path_specials)%bool
    then sanitize_path s
    else String c (sanitize_path s).
Proof.
  unfold sanitize_path. cbn [translate_delete].
  replace (mem_char c path_deletechars)
    with (Nat.ltb (nat_of_ascii c) 31 || mem_char c path_specials)%bool;
    [reflexivity|].
  destruct c as [[] [] [] [] [] [] [] []]; reflexivity.
Qed.

(** X22: The four deleting sanitizers are idempotent. *)
Theorem sanitizers_idempotent (s : string) :
  sanitize_username (sanitize_username s) = sanitize_username s /\
  sanitize_path (sanitize_path s) = sanitize_path s /\
  sanitize_unc_path (sanitize_unc_path s) = sanitize_unc_path s /\
  sanitize_file_name (sanitize_file_name s) = sanitize_file_name s.
Proof.
  repeat split.
  - apply translate_delete_idem.
  - apply translate_delete_idem.
  - rewrite !sanitize_unc_path_delete. apply translate_delete_idem.
  - rewrite !sanitize_file_name_delete. apply translate_delete_idem.
Qed.

(** X23: What the deleting sanitizers return holds none of the characters they
    delete: no colon in a sanitized UNC path, neither colon nor backslash in
    a sanitized file name; and none of them returns more characters than it
    was given. *)
Theorem sanitizers_output_clean (s : string) :
  free_of username_deletechars (sanitize_username s) = true /\
  free_of path_deletechars (sanitize_path s) = true /\
  free_of (path_deletechars ++ ":") (sanitize_unc_path s) = true /\
  free_of (path_deletechars ++ file_name_deletechars) (sanitize_file_name s) = true /\
  (String.length (sanitize_username s) <= String.length s)%nat /\
  (String.length (sanitize_path s) <= String.length s)%nat /\
  (String.length (sanitize_unc_path s) <= String.length (sanitize_path s))%nat /\
  (String.length (sanitize_file_name s) <= String.length (sanitize_path s))%nat.
Proof.
  repeat split; try apply translate_delete_length.
  - apply translate_delete_free.
  - apply translate_delete_free.
  - rewrite sanitize_unc_path_delete. apply translate_delete_free.
  - rewrite sanitize_file_name_delete. apply translate_delete_free.
Qed.

(** X24: A sanitizer returns its argument unchanged exactly when the argument
    holds none of the characters it deletes. *)
Theorem sanitizers_fixed_points (s : string) :
  (sanitize_username s = s <-> free_of username_deletechars s = true) /\
  (sanitize_path s = s <-> free_of path_deletechars s = true) /\
  (sanitize_unc_path s = s <-> free_of (path_deletechars ++ ":") s = true) /\
  (sanitize_file_name s = s <->
   free_of (path_deletechars ++ file_name_deletechars) s = true).
Proof.
  repeat split; try apply translate_delete_fixed.
  - rewrite sanitize_unc_path_delete. apply translate_delete_fixed.
  - rewrite sanitize_unc_path_delete. apply translate_delete_fixed.
  - rewrite sanitize_file_name_delete. apply translate_delete_fixed.
  - rewrite sanitize_file_name_delete. apply translate_delete_fixed.
Qed.

(** X25: How the path sanitizers compose: sanitizing a file name is sanitizing a
    UNC path and then deleting the backslashes; a sanitizer applied after a
    weaker one gives what it gives alone; and [sanitize_path] after
    [sanitize_unc_path] changes nothing. *)
Theorem sanitizers_compose (s : string) :
  sanitize_file_name s
  = translate_delete (sanitize_unc_path s) (String backslash "") /\
  sanitize_unc_path (sanitize_path s) = sanitize_unc_path s /\
  sanitize_file_name (sanitize_path s) = sanitize_file_name s /\
  sanitize_file_name (sanitize_unc_path s) = sanitize_file_name s /\
  sanitize_path (sanitize_unc_path s) = sanitize_unc_path s /\
  sanitize_unc_path (sanitize_file_name s) = sanitize_file_name s.
Proof.
  repeat split.
  - unfold sanitize_file_name, sanitize_unc_path.
    now rewrite (translate_delete_twice (sanitize_path s) ":").
  - unfold sanitize_unc_path, sanitize_path. now rewrite translate_delete_idem.
  - unfold sanitize_file_name, sanitize_path. now rewrite translate_delete_idem.
  - rewrite sanitize_unc_path_delete, !sanitize_file_name_delete.
    rewrite translate_delete_twice. apply translate_delete_ext.
    intros c. rewrite !mem_char_app.
    destruct (mem_char c path_deletechars); [reflexivity|]. simpl.
    destruct (Ascii.eqb c ":"); reflexivity.
  - unfold sanitize_unc_path, sanitize_path.
    rewrite translate_delete_comm. now rewrite translate_delete_idem.
  - rewrite sanitize_unc_path_delete, !sanitize_file_name_delete.
    rewrite translate_delete_twice. apply translate_delete_ext.
    intros c. rewrite !mem_char_app.
    destruct (mem_char c path_deletechars); [reflexivity|]. simpl.
    destruct (Ascii.eqb c ":"); [reflexivity|].
    destruct (Ascii.eqb c backslash); reflexivity.
Qed.

Lemma replace_char_app (old : ascii) (new a b : string) :
  replace_char old new (a ++ b) = replace_char old new a ++ replace_char old new b.
Proof.
  induction a as [|c a IH]; [reflexivity|].
  rewrite app_cons. simpl. destruct (Ascii.eqb c old).
  - now rewrite IH, append_assoc.
  - now rewrite app_cons, IH.
Qed.

(** X26: Every sanitizer maps a concatenation to the concatenation of what it
    gives on the parts. *)
Theorem sanitizers_concatenation (a b : string) :
  sanitize_for_shell (a ++ b) = sanitize_for_shell a ++ sanitize_for_shell b /\
  sanitize_username (a ++ b) = sanitize_username a ++ sanitize_username b /\
  sanitize_path (a ++ b) = sanitize_path a ++ sanitize_path b /\
  sanitize_unc_path (a ++ b) = sanitize_unc_path a ++ sanitize_unc_path b /\
  sanitize_file_name (a ++ b) = sanitize_file_name a ++ sanitize_file_name b.
Proof.
  repeat split.
  - apply replace_char_app.
  - apply translate_delete_app.
  - apply translate_delete_app.
  - rewrite !sanitize_unc_path_delete. apply translate_delete_app.
  - rewrite !sanitize_file_name_delete. apply translate_delete_app.
Qed.

Lemma sanitize_for_shell_cons (c : ascii) (s : string) :
  sanitize_for_shell (String c s)
  = if Ascii.eqb c dquote
    then String backslash (String dquote (sanitize_for_shell s))
    else String c (sanitize_for_shell s).
Proof.
  unfold sanitize_for_shell. simpl. now destruct (Ascii.eqb c dquote).
Qed.

Lemma quotes_escaped_for_shell (escaped : bool) (s : string) :
  quotes_escaped escaped (sanitize_for_shell s) = true.
Proof.
  revert escaped; induction s as [|c t IH]; intros escaped; [reflexivity|].
  rewrite sanitize_for_shell_cons. destruct (Ascii.eqb c dquote) eqn:E.
  - cbn [quotes_escaped]. change (Ascii.eqb backslash dquote) with false.
    rewrite Ascii.eqb_refl. cbn [negb orb andb].
    change (Ascii.eqb dquote backslash) with false. apply IH.
  - cbn [quotes_escaped]. rewrite E. cbn [negb orb andb]. apply IH.
Qed.

Lemma count_dquote_for_shell (s : string) :
  count_char dquote (sanitize_for_shell s) = count_char dquote s.
Proof.
  induction s as [|c t IH]; [reflexivity|].
  rewrite sanitize_for_shell_cons. destruct (Ascii.eqb c dquote) eqn:E.
  - cbn [count_char]. change (Ascii.eqb backslash dquote) with false.
    rewrite Ascii.eqb_refl, E, IH. reflexivity.
  - cbn [count_char]. now rewrite E, IH.
Qed.

Lemma length_for_shell (s : string) :
  String.length (sanitize_for_shell s)
  = (String.length s + count_char dquote s)%nat.
Proof.
  induction s as [|c t IH]; [reflexivity|].
  rewrite sanitize_for_shell_cons. cbn [count_char].
  destruct (Ascii.eqb c dquote); simpl; rewrite IH; lia.
Qed.

(** X27: In what [sanitize_for_shell] returns every double quote stands right
    after a backslash; there are as many double quotes as in the argument,
    and one more character for each of them. *)
Theorem sanitize_for_shell_escapes (s : string) :
  quotes_escaped false (sanitize_for_shell s) = true /\
  count_char dquote (sanitize_for_shell s) = count_char dquote s /\
  String.length (sanitize_for_shell s)
  = (String.length s + count_char dquote s)%nat.
Proof.
  split; [apply quotes_escaped_for_shell|].
  split; [apply count_dquote_for_shell | apply length_for_shell].
Qed.

Lemma for_shell_no_quotes (s : string) :
  count_char dquote s = O -> sanitize_for_shell s = s.
Proof.
  induction s as [|c t IH]; [reflexivity|].
  rewrite sanitize_for_shell_cons. cbn [count_char].
  destruct (Ascii.eqb c dquote); [discriminate|]. simpl.
  intros H. now rewrite IH.
Qed.

(** X28: [sanitize_for_shell] is not idempotent: applying it to its own result
    changes that result again, unless the argument has no double quote, in
    which case it is returned as it is. *)
Theorem sanitize_for_shell_twice (s : string) :
  (sanitize_for_shell (sanitize_for_shell s) = sanitize_for_shell s <->
   count_char dquote s = O) /\
  (sanitize_for_shell s = s <-> count_char dquote s = O).
Proof.
  split; split.
  - intros H. apply (f_equal String.length) in H.
    rewrite !length_for_shell, count_dquote_for_shell in H. lia.
  - intros H. now rewrite !(for_shell_no_quotes s H).
  - intros H. apply (f_equal String.length) in H.
    rewrite length_for_shell in H. lia.
  - apply for_shell_no_quotes.
Qed.

Lemma for_shell_head (s : string) (rest : string) :
  sanitize_for_shell s <> String dquote rest.
Proof.
  destruct s as [|c t]; [discriminate|].
  rewrite sanitize_for_shell_cons. destruct (Ascii.eqb c dquote) eqn:E.
  - intros H. injection H as H _. discriminate H.
  - intros [= -> _]. rewrite Ascii.eqb_refl in E. discriminate.
Qed.

(** X29: [sanitize_for_shell] loses nothing: two different strings are never
    sanitized to the same one. *)
Theorem sanitize_for_shell_injective (a b : string) :
  sanitize_for_shell a = sanitize_for_shell b -> a = b.
Proof.
  revert b; induction a as [|c a IH]; intros [|d b] H.
  - reflexivity.
  - rewrite sanitize_for_shell_cons in H.
    destruct (Ascii.eqb d dquote); discriminate.
  - rewrite sanitize_for_shell_cons in H.
    destruct (Ascii.eqb c dquote); discriminate.
  - rewrite !sanitize_for_shell_cons in H.
    destruct (Ascii.eqb_spec c dquote) as [->|Hc],
             (Ascii.eqb_spec d dquote) as [->|Hd].
    + injection H as H. now rewrite (IH b H).
    + injection H as _ H. symmetry in H. now apply for_shell_head in H.
    + injection H as _ H. now apply for_shell_head in H.
    + injection H as -> H. now rewrite (IH b H).
Qed.

Lemma sanitize_for_shell_injective_witness :
  String dquote "a" = String dquote "a".
Proof.
  apply (sanitize_for_shell_injective (String dquote "a") (String dquote "a")).
  reflexivity.
Defined.

End SanitizorFacts.

(** ** The table and its accessors *)

Section AccessorFacts.

Local Open Scope list_scope.

Lemma map_result_app {A B : Type} (f : A -> result B) (l1 l2 : list A) :
  map_result f (l1 ++ l2)
  = (let* ys1 := map_result f l1 in
     let* ys2 := map_result f l2 in
     Ok (ys1 ++ ys2)).
Proof.
  induction l1 as [|x l1 IH]; simpl.
  - now destruct (map_result f l2).
  - destruct (f x); [|reflexivity]. simpl. rewrite IH.
    destruct (map_result f l1); [|reflexivity]. simpl.
    now destruct (map_result f l2).
Qed.

(** X1: [get_column] after [add_row]: the values of the rows already there, then
    the value of the new row; a row without the column raises [KeyError], the
    earlier rows first. *)
Theorem get_column_add_row (self : NetUseTable) (row : gmap string string)
    (column : string) :
  get_column (add_row self row) column
  = (let* values := get_column self column in
     let* v := getitem row column in
     Ok (values ++ [v])).
Proof.
  unfold get_column, add_row. cbn [rows]. rewrite map_result_app.
  destruct (map_result _ (rows self)); [|reflexivity]. simpl.
  now destruct (getitem row column).
Qed.

Lemma get_column_Ok_intro (rows_ : list (gmap string string)) (column : string)
    (values : list string) :
  Forall2 (fun row v => row !! column = Some v) rows_ values ->
  map_result (fun row => getitem row column) rows_ = Ok values.
Proof.
  intros H. induction H as [|row v rest vs Hv _ IH]; [reflexivity|].
  simpl. unfold getitem at 1. rewrite Hv. simpl. now rewrite IH.
Qed.

Lemma get_column_Ok_inv (rows_ : list (gmap string string)) (column : string)
    (values : list string) :
  map_result (fun row => getitem row column) rows_ = Ok values ->
  Forall2 (fun row v => row !! column = Some v) rows_ values.
Proof.
  intros H. apply map_result_Ok in H.
  eapply Forall2_impl; [exact H|]. intros row v. unfold getitem.
  destruct (row !! column); [now intros [= ->] | discriminate].
Qed.

Lemma get_column_Err_inv (rows_ : list (gmap string string)) (column : string)
    (e : exn) :
  map_result (fun row => getitem row column) rows_ = Err e ->
  e = KeyError /\ Exists (fun row => row !! column = None) rows_.
Proof.
  induction rows_ as [|row rest IH]; simpl; [discriminate|].
  unfold getitem at 1. destruct (row !! column) as [v|] eqn:E; simpl.
  - destruct (map_result _ rest) as [vs|e']; simpl; [discriminate|].
    intros [= <-]. destruct (IH eq_refl) as [-> H].
    split; [reflexivity | now apply Exists_cons_tl].
  - intros [= <-]. split; [reflexivity | now apply Exists_cons_hd].
Qed.

(** X2: [get_column] returns one value per row, in row order, when every row has
    the column, and raises [KeyError], and nothing else, when some row does
    not. *)
Theorem get_column_values (self : NetUseTable) (column : string) :
  (forall values,
      get_column self column = Ok values <->
      Forall2 (fun row v => row !! column = Some v) (rows self) values) /\
  (forall e,
      get_column self column = Err e <->
      e = KeyError /\ Exists (fun row => row !! column = None) (rows self)).
Proof.
  unfold get_column. split.
  - intros values. split; [apply get_column_Ok_inv | apply get_column_Ok_intro].
  - intros e. split; [apply get_column_Err_inv|]. intros [-> Hex].
    destruct (map_result _ (rows self)) as [vs|e] eqn:M.
    + apply get_column_Ok_inv in M.
      apply Exists_exists in Hex as (row & Hin & Hrow).
      apply list_elem_of_lookup in Hin as [i Hi].
      destruct (Forall2_lookup_l _ _ _ _ _ M Hi) as (v & _ & Hv). congruence.
    + now apply get_column_Err_inv in M as [-> _].
Qed.

Lemma standard_row_lookup (row : gmap string string) (k : string) :
  standard_row row -> k ∈ ({["local"; "remote"; "status"]} : gset string) ->
  exists v, row !! k = Some v /\ trimmed v.
Proof.
  intros [Hdom Hv] Hk. rewrite <- Hdom in Hk.
  apply elem_of_dom in Hk as [v E]. exists v. split; [exact E | eapply Hv, E].
Qed.

Lemma get_column_standard (rows_ : list (gmap string string)) (k : string) :
  Forall standard_row rows_ ->
  k ∈ ({["local"; "remote"; "status"]} : gset string) ->
  exists values,
    map_result (fun row => getitem row k) rows_ = Ok values /\
    List.length values = List.length rows_ /\ Forall trimmed values.
Proof.
  intros H Hk. induction H as [|row rest Hrow _ (vs & Hvs & Hlen & Htr)].
  - exists []. repeat split. constructor.
  - destruct (standard_row_lookup row k Hrow Hk) as (v & E & Hv).
    exists (v :: vs). simpl. unfold getitem at 1. rewrite E. simpl.
    rewrite Hvs. simpl.
    repeat split; [now rewrite Hlen | now constructor].
Qed.

Lemma parse_rows_standard (s : string) (table : NetUseTable) :
  parse_net_use_table s = Ok table -> Forall standard_row (rows table).
Proof.
  unfold parse_net_use_table, parse_populated_net_use_table.
  destruct (PyStr.contains EMPTY_TABLE_INDICATOR s).
  - intros [= <-]. constructor.
  - destruct (get_columns (split_lines s)) as [cols|]; [|discriminate].
    cbn [rbind]. unfold build_net_use_table_from_parts. intros H.
    eapply build_loop_rows; [exact H | constructor].
Qed.

Lemma row_matches_standard (local remote status : option string)
    (v1 v2 v3 : string) (row : gmap string string) :
  row !! "local" = Some v1 -> row !! "remote" = Some v2 ->
  row !! "status" = Some v3 ->
  row_matches local remote status row = Ok (values_pass local remote status v1 v2 v3).
Proof.
  intros H1 H2 H3. unfold row_matches, values_pass, getitem.
  rewrite H1, H2, H3.
  destruct (criterion_given local), (criterion_given remote),
    (criterion_given status); reflexivity.
Qed.

Lemma row_matches_passes (local remote status : option string)
    (row : gmap string string) (b : bool) :
  row_matches local remote status row = Ok b -> b = row_passes local remote status row.
Proof.
  unfold row_matches, row_passes, values_pass, getitem.
  destruct (criterion_given local) as [l|];
    destruct (criterion_given remote) as [r|];
    destruct (criterion_given status) as [s|];
    destruct (row !! "local"); destruct (row !! "remote");
    destruct (row !! "status"); simpl; intros [= <-]; reflexivity.
Qed.

Lemma is_Some_None_inv {A : Type} (P : Prop) : is_Some (@None A) -> P.
Proof. intros [x H]. discriminate H. Qed.

Lemma row_matches_Err (local remote status : option string)
    (row : gmap string string) (e : exn) :
  row_matches local remote status row = Err e <->
  e = KeyError /\ lacks_needed_key local remote status row.
Proof.
  unfold row_matches, lacks_needed_key, getitem.
  destruct (criterion_given local) as [l|];
    destruct (criterion_given remote) as [r|];
    destruct (criterion_given status) as [s|];
    destruct (row !! "local"); destruct (row !! "remote");
    destruct (row !! "status"); simpl;
    (split; [intros H | intros [-> H]]);
    try discriminate H; try reflexivity;
    try (injection H as <-; split; [reflexivity|];
         first [ left; split; [eexists; reflexivity | reflexivity]
               | right; left; split; [eexists; reflexivity | reflexivity]
               | right; right; split; [eexists; reflexivity | reflexivity] ]);
    try (exfalso; destruct H as [[H1 H2]|[[H1 H2]|[H1 H2]]];
         first [ discriminate H2 | exact (is_Some_None_inv False H1) ]).
Qed.

Lemma get_matching_rows_loop_Ok (local remote status : option string)
    (todo acc res : list (gmap string string)) :
  get_matching_rows_loop local remote status todo acc = Ok res <->
  Forall (fun row => ~ lacks_needed_key local remote status row) todo /\
  res = acc ++ List.filter (row_passes local remote status) todo.
Proof.
  revert acc; induction todo as [|row rest IH]; intros acc; simpl.
  - rewrite app_nil_r. split.
    + intros [= <-]. split; [constructor | reflexivity].
    + intros [_ ->]. reflexivity.
  - destruct (row_matches local remote status row) as [b|e] eqn:M; simpl.
    + pose proof (row_matches_passes _ _ _ _ _ M) as ->.
      assert (~ lacks_needed_key local remote status row) as Hrow.
      { intros H. assert (row_matches local remote status row = Err KeyError) as C
          by (apply row_matches_Err; now split). congruence. }
      rewrite IH. destruct (row_passes local remote status row).
      * rewrite <- app_assoc. simpl. split.
        -- intros [H ->]. split; [now constructor | reflexivity].
        -- intros [H ->]. inversion H; subst. now split.
      * split.
        -- intros [H ->]. split; [now constructor | reflexivity].
        -- intros [H ->]. inversion H; subst. now split.
    + split; [discriminate|]. intros [H _]. inversion H as [|? ? Hrow _]; subst.
      elim Hrow. now apply (row_matches_Err _ _ _ _ e).
Qed.

Lemma get_matching_rows_loop_Err (local remote status : option string)
    (todo acc : list (gmap string string)) (e : exn) :
  get_matching_rows_loop local remote status todo acc = Err e ->
  e = KeyError /\ Exists (lacks_needed_key local remote status) todo.
Proof.
  revert acc; induction todo as [|row rest IH]; intros acc; simpl; [discriminate|].
  destruct (row_matches local remote status row) as [b|e'] eqn:M; simpl.
  - intros H. destruct (IH _ H) as [-> Hex]. split; [reflexivity|].
    now apply Exists_cons_tl.
  - intros [= <-]. apply row_matches_Err in M as [-> M].
    split; [reflexivity | now apply Exists_cons_hd].
Qed.

(** X3: [get_matching_rows] returns, in row order, the rows that pass every
    criterion given, provided no row lacks the key of a given criterion; it
    raises [KeyError], and nothing else, exactly when some row lacks such a
    key, also a row that another criterion already rules out. *)
Theorem get_matching_rows_filter (self : NetUseTable)
    (local remote status : option string) :
  (forall res,
      get_matching_rows self local remote status = Ok res <->
      Forall (fun row => ~ lacks_needed_key local remote status row) (rows self) /\
      res = List.filter (row_passes local remote status) (rows self)) /\
  (forall e,
      get_matching_rows self local remote status = Err e <->
      e = KeyError /\ Exists (lacks_needed_key local remote status) (rows self)).
Proof.
  unfold get_matching_rows. split.
  - intros res. apply get_matching_rows_loop_Ok.
  - intros e. split; [apply get_matching_rows_loop_Err|].
    intros [-> Hex].
    destruct (get_matching_rows_loop local remote status (rows self) [])
      as [res|e] eqn:L.
    + apply get_matching_rows_loop_Ok in L as [Hall _].
      apply Exists_exists in Hex as (row & Hin & Hrow).
      rewrite Forall_forall in Hall. now elim (Hall row Hin).
    + now apply get_matching_rows_loop_Err in L as [-> _].
Qed.

(** X4: Filtering what [get_matching_rows] returned, with the same criteria,
    returns it again. *)
Theorem get_matching_rows_idempotent (self : NetUseTable)
    (local remote status : option string) (res : list (gmap string string)) :
  get_matching_rows self local remote status = Ok res ->
  get_matching_rows (mkNetUseTable res) local remote status = Ok res.
Proof.
  unfold get_matching_rows. cbn [rows]. intros H.
  apply get_matching_rows_loop_Ok in H as [Hall ->].
  apply get_matching_rows_loop_Ok. simpl app. split.
  - apply Forall_forall. intros row Hin.
    apply list_elem_of_In, filter_In in Hin as [Hin _].
    rewrite Forall_forall in Hall. apply Hall. now apply list_elem_of_In.
  - induction (rows self) as [|row rest IH]; [reflexivity|]. simpl.
    inversion Hall; subst.
    destruct (row_passes local remote status row) eqn:P; simpl.
    + rewrite P. f_equal. now apply IH.
    + now apply IH.
Qed.

Lemma get_matching_rows_idempotent_witness :
  get_matching_rows (mkNetUseTable [host_row]) (Some "z") None (Some "ok")
  = Ok [host_row].
Proof.
  apply (get_matching_rows_idempotent (mkNetUseTable [host_row])
           (Some "z") None (Some "ok")).
  vm_compute. reflexivity.
Defined.

(** X6: On a table returned by [parse_net_use_table] the accessors do not raise:
    [get_connected_paths] gives one trimmed value per row,
    [get_connected_devices] gives trimmed non-empty values, at most one per
    row, and [get_matching_rows] returns the rows that pass the criteria,
    whatever the criteria. *)
Theorem parsed_table_accessors (s : string) (table : NetUseTable) :
  parse_net_use_table s = Ok table ->
  (exists paths,
      get_connected_paths table = Ok paths /\
      List.length paths = List.length (rows table) /\ Forall trimmed paths) /\
  (exists devices,
      get_connected_devices table = Ok devices /\
      (List.length devices <= List.length (rows table))%nat /\
      Forall (fun d => d <> "" /\ trimmed d) devices) /\
  (forall local remote status,
      get_matching_rows table local remote status
      = Ok (List.filter (row_passes local remote status) (rows table))).
Proof.
  intros H. apply parse_rows_standard in H.
  split; [|split].
  - apply get_column_standard; [exact H | set_solver].
  - destruct (get_column_standard (rows table) "local" H ltac:(set_solver))
      as (vs & Hvs & Hlen & Htr).
    exists (List.filter PyStr.truthy vs).
    unfold get_connected_devices, get_column. rewrite Hvs. cbn [rbind].
    split; [reflexivity|]. split.
    + rewrite <- Hlen. clear. induction vs as [|v vs IH]; simpl; [lia|].
      destruct (PyStr.truthy v); simpl; lia.
    + clear Hvs Hlen. induction Htr as [|v vs Hv _ IH]; simpl; [constructor|].
      destruct v as [|c v]; simpl; [exact IH|].
      constructor; [split; [discriminate | exact Hv] | exact IH].
  - intros local remote status. unfold get_matching_rows.
    apply get_matching_rows_loop_Ok. split; [|reflexivity].
    eapply Forall_impl; [exact H|]. intros row Hrow Hlack.
    destruct (standard_row_lookup row "local" Hrow ltac:(set_solver)) as (? & E1 & _).
    destruct (standard_row_lookup row "remote" Hrow ltac:(set_solver)) as (? & E2 & _).
    destruct (standard_row_lookup row "status" Hrow ltac:(set_solver)) as (? & E3 & _).
    destruct Hlack as [[_ C]|[[_ C]|[_ C]]]; congruence.
Qed.

Lemma parsed_table_accessors_witness :
  exists paths,
    get_connected_paths
      (mkNetUseTable
         [ {[ "local" := "X:"; "remote" := "\\host\share"; "status" := "OK" ]};
           {[ "local" := ""; "remote" := "\\another.host\with\a\long\path";
              "status" := "Disconnected" ]} ])
    = Ok paths /\
    List.length paths = 2%nat /\ Forall trimmed paths.
Proof.
  apply (parsed_table_accessors sample_output). vm_compute. reflexivity.
Defined.

End AccessorFacts.

(** ** Comparing drive letters and remote paths *)

Section ComparisonFacts.

Lemma lower_char_idem (c : ascii) :
  PyStr.lower_char (PyStr.lower_char c) = PyStr.lower_char c.
Proof. destruct c as [[] [] [] [] [] [] [] []]; reflexivity. Qed.

Lemma is_colon_lower_char (c : ascii) : is_colon (PyStr.lower_char c) = is_colon c.
Proof. destruct c as [[] [] [] [] [] [] [] []]; reflexivity. Qed.

Lemma lower_idem (s : string) : PyStr.lower (PyStr.lower s) = PyStr.lower s.
Proof.
  induction s as [|c t IH]; [reflexivity|]. simpl.
  now rewrite lower_char_idem, IH.
Qed.

Lemma lower_app (a b : string) :
  PyStr.lower (a ++ b) = PyStr.lower a ++ PyStr.lower b.
Proof.
  induction a as [|c a IH]; [reflexivity|].
  rewrite app_cons. simpl. now rewrite app_cons, IH.
Qed.

Lemma rstrip_colons_lower (s : string) :
  PyStr.rstrip_by is_colon (PyStr.lower s)
  = PyStr.lower (PyStr.rstrip_by is_colon s).
Proof.
  induction s as [|c t IH]; [reflexivity|].
  cbn [PyStr.lower]. rewrite !rstrip_by_cons, IH.
  destruct (PyStr.rstrip_by is_colon t) as [|a r]; cbn [PyStr.lower].
  - rewrite is_colon_lower_char. now destruct (is_colon c).
  - reflexivity.
Qed.

Lemma rstrip_by_app_char (p : ascii -> bool) (s : string) (c : ascii) :
  p c = true ->
  PyStr.rstrip_by p (s ++ String c "") = PyStr.rstrip_by p s.
Proof.
  intros Hc. induction s as [|d t IH].
  - simpl. now rewrite Hc.
  - rewrite app_cons, !rstrip_by_cons, IH. reflexivity.
Qed.

(** X7: [drive_letters_equal] does not see a trailing colon or the case of the
    letters of either argument; it is reflexive, symmetric and transitive. *)
Theorem drive_letters_equal_insensitive (a b c : string) :
  drive_letters_equal (a ++ ":") b = drive_letters_equal a b /\
  drive_letters_equal (PyStr.lower a) b = drive_letters_equal a b /\
  drive_letters_equal a a = true /\
  drive_letters_equal a b = drive_letters_equal b a /\
  (drive_letters_equal a b = true -> drive_letters_equal b c = true ->
   drive_letters_equal a c = true).
Proof.
  unfold drive_letters_equal. repeat split.
  - now rewrite rstrip_by_app_char.
  - now rewrite rstrip_colons_lower, lower_idem.
  - apply String.eqb_refl.
  - apply String.eqb_sym.
  - intros H1 H2. apply String.eqb_eq in H1, H2. apply String.eqb_eq. congruence.
Qed.

Lemma normalize_remote_path_plain (path : string) :
  PyStr.endswith (PyStr.lower path) ipc_suffix = false ->
  normalize_remote_path path = PyStr.lower path.
Proof. intros H. unfold normalize_remote_path. now rewrite H. Qed.

(** X8: [normalize_remote_path] is idempotent and does not see the case of the
    letters; [remote_paths_equal], which compares what it returns, is
    reflexive and symmetric and does not see the case either. *)
Theorem remote_paths_equal_insensitive (a b : string) :
  normalize_remote_path (normalize_remote_path a) = normalize_remote_path a /\
  normalize_remote_path (PyStr.lower a) = normalize_remote_path a /\
  remote_paths_equal (PyStr.lower a) b = remote_paths_equal a b /\
  remote_paths_equal a a = true /\
  remote_paths_equal a b = remote_paths_equal b a.
Proof.
  assert (normalize_remote_path (PyStr.lower a) = normalize_remote_path a) as Hl.
  { unfold normalize_remote_path. now rewrite lower_idem. }
  unfold remote_paths_equal. repeat split.
  - destruct (PyStr.endswith (PyStr.lower a) ipc_suffix) eqn:E.
    + rewrite (normalize_remote_path_keeps_suffix a E). reflexivity.
    + rewrite (normalize_remote_path_plain a E).
      rewrite normalize_remote_path_plain; rewrite lower_idem; [reflexivity | exact E].
  - exact Hl.
  - now rewrite Hl.
  - apply String.eqb_refl.
  - apply String.eqb_sym.
Qed.

(** X9: A remote path that ends in [\ipc$], in any case, is normalized to those
    five characters whatever its host: it compares equal to every path that
    ends in [\ipc$] and to no other path. *)
Theorem ipc_path_equals_ipc_paths (a b : string) :
  PyStr.endswith (PyStr.lower a) ipc_suffix = true ->
  remote_paths_equal a b = PyStr.endswith (PyStr.lower b) ipc_suffix.
Proof.
  intros Ha. unfold remote_paths_equal.
  rewrite (normalize_remote_path_keeps_suffix a Ha).
  destruct (PyStr.endswith (PyStr.lower b) ipc_suffix) eqn:Hb.
  - rewrite (normalize_remote_path_keeps_suffix b Hb). reflexivity.
  - rewrite (normalize_remote_path_plain b Hb).
    destruct (String.eqb_spec ipc_suffix (PyStr.lower b)) as [E|E]; [|reflexivity].
    rewrite <- E in Hb. discriminate Hb.
Qed.

Lemma ipc_path_equals_ipc_paths_witness :
  remote_paths_equal "\\alpha\IPC$" "\\beta\ipc$" = true.
Proof.
  apply (ipc_path_equals_ipc_paths "\\alpha\IPC$" "\\beta\ipc$"). reflexivity.
Defined.

End ComparisonFacts.

(** ** Renaming keys *)

Section RekeyFacts.

Local Open Scope list_scope.

Ltac distinct_strings :=
  cbn; repeat constructor;
  intros H; repeat (apply elem_of_cons in H as [H|H]; [discriminate H|]);
  inversion H.

Lemma rekey_dict_loop_Ok (d : gmap string string) (key_map : list (string * string)) :
  forall acc : gmap string string,
    NoDup (List.map snd key_map) ->
    Forall (fun p => is_Some (d !! fst p)) key_map ->
    exists r,
      rekey_dict_loop d key_map acc = Ok r /\
      (forall old new, In (old, new) key_map -> r !! new = d !! old) /\
      (forall k, ~ In k (List.map snd key_map) -> r !! k = acc !! k).
Proof.
  induction key_map as [|[o n] rest IH]; intros acc Hnd Hall.
  - exists acc. split; [reflexivity|]. split; [intros ? ? []|reflexivity].
  - simpl in Hnd. apply NoDup_cons in Hnd as [Hn Hnd].
    inversion Hall as [|? ? [v Hv] Hrest]; subst. simpl in Hv.
    destruct (IH (<[n := v]> acc) Hnd Hrest) as (r & Hr & Hin & Hout).
    exists r. cbn [rekey_dict_loop]. unfold getitem. rewrite Hv. cbn [rbind].
    split; [exact Hr|]. split.
    + intros old new [[= <- <-]|H]; [|now apply Hin].
      rewrite Hout, lookup_insert_eq; [now symmetry|].
      intros C. apply Hn. now apply list_elem_of_In.
    + intros k Hk. simpl in Hk. rewrite Hout by tauto.
      apply lookup_insert_ne. tauto.
Qed.

Lemma rekey_dict_loop_Err (d : gmap string string) (key_map : list (string * string)) :
  forall acc : gmap string string,
    Exists (fun p => d !! fst p = None) key_map ->
    rekey_dict_loop d key_map acc = Err KeyError.
Proof.
  induction key_map as [|[o n] rest IH]; intros acc H.
  - inversion H.
  - cbn [rekey_dict_loop]. unfold getitem.
    destruct (d !! o) as [v|] eqn:E; [|reflexivity]. cbn [rbind].
    apply IH. apply Exists_cons in H as [H|H]; [simpl in H; congruence | exact H].
Qed.

Lemma rekey_dict_present (d : gmap string string) (key_map : list (string * string)) :
  NoDup (List.map snd key_map) ->
  Forall (fun p => is_Some (d !! fst p)) key_map ->
  exists r,
    rekey_dict d key_map = Ok r /\
    dom r = new_keys key_map /\
    forall old new, In (old, new) key_map -> r !! new = d !! old.
Proof.
  intros Hnd Hall.
  destruct (rekey_dict_loop_Ok d key_map ∅ Hnd Hall) as (r & Hr & Hin & Hout).
  exists r. split; [exact Hr|]. split; [|exact Hin].
  apply set_eq. intros k. rewrite elem_of_dom. unfold new_keys.
  rewrite elem_of_list_to_set, list_elem_of_In. split.
  - intros Hk. destruct (in_dec string_dec k (List.map snd key_map)) as [H|H];
      [exact H|].
    rewrite (Hout k H), lookup_empty in Hk. now destruct Hk.
  - intros Hk. apply in_map_iff in Hk as ([o n] & <- & Hp). simpl.
    rewrite (Hin o n Hp). rewrite Forall_forall in Hall.
    apply (Hall (o, n)). now apply list_elem_of_In.
Qed.

(** X10: [rekey_dict] on a key map whose new names are distinct: when [d] has
    every old key, the result has exactly the new names as keys, each bound
    to the value [d] has under the old key; when [d] lacks an old key,
    [KeyError] is raised. *)
Theorem rekey_dict_renames (d : gmap string string) (key_map : list (string * string)) :
  NoDup (List.map snd key_map) ->
  (Forall (fun p => is_Some (d !! fst p)) key_map ->
   exists r,
     rekey_dict d key_map = Ok r /\
     dom r = new_keys key_map /\
     forall old new, In (old, new) key_map -> r !! new = d !! old) /\
  (Exists (fun p => d !! fst p = None) key_map ->
   rekey_dict d key_map = Err KeyError).
Proof.
  intros Hnd. split; [now apply rekey_dict_present | apply rekey_dict_loop_Err].
Qed.

Lemma rekey_dict_renames_witness :
  exists r,
    rekey_dict {[ "a" := "1"; "b" := "2" ]} [("a", "b"); ("b", "c")] = Ok r /\
    dom r = new_keys [("a", "b"); ("b", "c")] /\
    forall old new,
      In (old, new) [("a", "b"); ("b", "c")] ->
      r !! new = ({[ "a" := "1"; "b" := "2" ]} : gmap string string) !! old.
Proof.
  apply (rekey_dict_renames {[ "a" := "1"; "b" := "2" ]} [("a", "b"); ("b", "c")]).
  - distinct_strings.
  - repeat constructor; eexists; reflexivity.
Defined.

(** X11: The result of [rekey_dict] does not depend on the order in which the key
    map is gone through, when its new names are distinct. *)
Theorem rekey_dict_any_order (d : gmap string string)
    (key_map key_map' : list (string * string)) :
  Permutation key_map key_map' ->
  NoDup (List.map snd key_map) ->
  rekey_dict d key_map = rekey_dict d key_map'.
Proof.
  intros Hp Hnd.
  assert (List.map snd key_map ≡ₚ List.map snd key_map') as Hps
      by exact (fmap_Permutation snd _ _ Hp).
  assert (NoDup (List.map snd key_map')) as Hnd' by now rewrite <- Hps.
  destruct (decide (Forall (fun p => is_Some (d !! fst p)) key_map)) as [Hall|Hex].
  - assert (Forall (fun p => is_Some (d !! fst p)) key_map') as Hall'
        by now rewrite <- Hp.
    destruct (rekey_dict_present d key_map Hnd Hall) as (r & -> & Hd & Hl).
    destruct (rekey_dict_present d key_map' Hnd' Hall') as (r' & -> & Hd' & Hl').
    f_equal. apply map_eq. intros k.
    destruct (in_dec string_dec k (List.map snd key_map)) as [H|H].
    + apply in_map_iff in H as ([o n] & <- & Hin). simpl.
      rewrite (Hl o n Hin). symmetry. apply Hl'.
      apply list_elem_of_In. rewrite <- Hp. now apply list_elem_of_In.
    + assert (k ∉ new_keys key_map) as Hk.
      { unfold new_keys. rewrite elem_of_list_to_set, list_elem_of_In. exact H. }
      assert (new_keys key_map' = new_keys key_map) as Hsame.
      { unfold new_keys. apply set_eq. intros x.
        rewrite !elem_of_list_to_set. now rewrite Hps. }
      transitivity (@None string).
      * apply not_elem_of_dom. now rewrite Hd.
      * symmetry. apply not_elem_of_dom. now rewrite Hd', Hsame.
  - apply not_Forall_Exists in Hex; [|intros p; apply _].
    assert (Exists (fun p => d !! fst p = None) key_map) as He.
    { eapply Exists_impl; [exact Hex|]. intros p Hn. simpl in Hn.
      destruct (d !! fst p); [elim Hn; eauto | reflexivity]. }
    assert (Exists (fun p => d !! fst p = None) key_map') as He'
        by now rewrite <- Hp.
    unfold rekey_dict. rewrite (rekey_dict_loop_Err d key_map ∅ He).
    now rewrite (rekey_dict_loop_Err d key_map' ∅ He').
Qed.

Lemma rekey_dict_any_order_witness :
  rekey_dict {[ "Local" := "X:"; "Remote" := "\\h"; "Status" := "OK" ]}
    MAP_RAW_COLUMNS_TO_STANDARD_COLUMNS
  = rekey_dict {[ "Local" := "X:"; "Remote" := "\\h"; "Status" := "OK" ]}
      [("Status", "status"); ("Local", "local"); ("Remote", "remote")].
Proof.
  apply rekey_dict_any_order.
  - eapply perm_trans; [apply perm_skip, perm_swap | apply perm_swap].
  - distinct_strings.
Defined.

End RekeyFacts.

(** ** Columns, body and rows: edge behaviour *)

Section EdgeFacts.

Local Open Scope list_scope.

Lemma length_lstrip_by (p : ascii -> bool) (s : string) :
  (String.length (PyStr.lstrip_by p s) <= String.length s)%nat.
Proof.
  induction s as [|c t IH]; simpl; [lia|]. destruct (p c); simpl; lia.
Qed.

Lemma length_rstrip_by (p : ascii -> bool) (s : string) :
  (String.length (PyStr.rstrip_by p s) <= String.length s)%nat.
Proof.
  induction s as [|c t IH]; [reflexivity|]. rewrite rstrip_by_cons.
  destruct (PyStr.rstrip_by p t) as [|a r]; [destruct (p c)|]; simpl in *; lia.
Qed.

Lemma length_str_take (n : nat) (s : string) :
  (String.length (PyStr.str_take n s) <= String.length s)%nat.
Proof.
  revert s; induction n as [|n IH]; intros [|c t]; simpl; try lia.
  specialize (IH t). lia.
Qed.

Lemma length_slice (s : string) (a b : option Z) :
  (String.length (PyStr.slice s a b) <= String.length s)%nat.
Proof.
  unfold PyStr.slice. etransitivity; [apply length_str_take|].
  rewrite length_str_drop. lia.
Qed.

(** X12: [extract] never raises: what it returns has no whitespace at either end
    and is no longer than the row; on a row that ends before the column
    starts it returns the empty string. *)
Theorem extract_bounds (column : NetUseColumn) (line : string) :
  trimmed (extract column line) /\
  (String.length (extract column line) <= String.length line)%nat /\
  (0 <= start column -> PyStr.len line <= start column ->
   extract column line = "").
Proof.
  unfold extract. split; [apply strip_trimmed|]. split.
  - unfold PyStr.strip, PyStr.lstrip, PyStr.rstrip.
    etransitivity; [apply length_lstrip_by|].
    etransitivity; [apply length_rstrip_by|]. apply length_slice.
  - intros H0 Hshort. unfold PyStr.slice.
    assert (PyStr.clip (PyStr.len line) (start column) = PyStr.len line) as ->.
    { unfold PyStr.clip. destruct (Z.ltb_spec (start column) 0); lia. }
    replace (Z.to_nat (PyStr.len line)) with (String.length line)
      by (unfold PyStr.len; lia).
    rewrite str_drop_all by lia. now destruct (Z.to_nat _).
Qed.

Lemma is_heading_not_space (c : ascii) : PyStr.isalpha c = true -> PyStr.isspace c = false.
Proof. destruct c as [[] [] [] [] [] [] [] []]; try reflexivity; discriminate. Qed.

(** X13: A layout that [get_columns] returns is not empty; its first column
    starts at offset 0, no column starts at a negative offset, and the last
    column, and only the last, has no end offset. *)
Theorem get_columns_shape (lines : list string) (cols : list NetUseColumn) :
  get_columns lines = Ok cols ->
  (exists first_column others,
      cols = first_column :: others /\ start first_column = 0) /\
  Forall (fun c => 0 <= start c) cols /\
  (forall i c, cols !! i = Some c ->
               (end_ c = None <-> S i = List.length cols)).
Proof.
  unfold get_columns.
  destruct (Parsing.rfirst is_heading _) as [h|] eqn:R; [|discriminate].
  cbn [rbind]. apply rfirst_Ok in R as (_ & _ & _ & Hh & _).
  destruct (columns_of_heading_spec h) as (cols' & -> & Hnames & Hspec).
  intros [= <-]. split; [|split].
  - destruct h as [|c t]; [discriminate|]. simpl in Hh.
    destruct (split_head t c (is_heading_not_space c Hh)) as (w & ws & Hsplit & Hw).
    rewrite Hsplit in Hnames.
    destruct cols' as [|c0 rest]; [discriminate|].
    exists c0, rest. split; [reflexivity|].
    destruct (Hspec O c0 eq_refl) as [(n & Hn & [Hocc Hmin]) _].
    injection Hnames as Hname _. rewrite Hn.
    destruct n as [|n]; [reflexivity|].
    specialize (Hmin O ltac:(lia)). rewrite Hname in Hmin.
    simpl in Hmin. rewrite Ascii.eqb_refl, Hw in Hmin. discriminate.
  - apply Forall_forall. intros c Hc.
    apply list_elem_of_lookup in Hc as [i Hi].
    destruct (Hspec i c Hi) as [(n & -> & _) _]. lia.
  - intros i c Hi. destruct (Hspec i c Hi) as [_ ->].
    pose proof (lookup_lt_Some _ _ _ Hi) as Hlt.
    destruct (cols' !! S i) as [c'|] eqn:E; simpl.
    + apply lookup_lt_Some in E. split; [discriminate | lia].
    + apply lookup_ge_None in E. split; [lia | reflexivity].
Qed.

Lemma get_columns_shape_witness :
  (exists first_column others,
      sample_layout = first_column :: others /\ start first_column = 0) /\
  Forall (fun c => 0 <= start c) sample_layout /\
  (forall i c, sample_layout !! i = Some c ->
               (end_ c = None <-> S i = List.length sample_layout)).
Proof.
  apply (get_columns_shape (split_lines sample_output)). vm_compute. reflexivity.
Defined.

(** X14: Whatever the input, no line of the body is empty or is the terminator
    line, and the body is a run of consecutive lines of the input. *)
Theorem get_body_lines (lines : list string) :
  Forall (fun x => x <> "" /\ x <> LAST_TABLE_LINE) (get_body lines) /\
  exists before after, lines = before ++ get_body lines ++ after.
Proof.
  unfold get_body.
  set (bottom := Parsing.drop_while (Parsing.not_ is_line_separator) lines).
  pose proof (take_drop_while (Parsing.not_ is_line_separator) lines) as Hsplit.
  fold bottom in Hsplit.
  destruct (Nat.ltb 1 (List.length bottom)).
  - split.
    + eapply Forall_impl; [apply take_while_Forall|].
      intros x Hx. now apply is_last_line_iff.
    + destruct bottom as [|sep rest]; simpl.
      * exists lines, []. now rewrite app_nil_r.
      * exists (Parsing.take_while (Parsing.not_ is_line_separator) lines ++ [sep]),
          (Parsing.drop_while is_last_line rest).
        rewrite <- app_assoc. simpl. now rewrite take_drop_while.
  - split; [constructor|]. exists lines, []. now rewrite app_nil_r.
Qed.

Lemma firsts_of_pairs (l : list string) (final : string) :
  List.map fst (pairs_with_next l final) = l.
Proof.
  induction l as [|a l IH]; [reflexivity|].
  rewrite pairs_with_next_cons. simpl. now rewrite IH.
Qed.

Lemma build_loop_count (cols : list NetUseColumn) (pairs : list (string * string)) :
  forall t t' : NetUseTable,
    build_loop cols pairs t = Ok t' ->
    List.length (rows t')
    = (List.length (rows t)
       + List.length (List.filter starts_row (List.map fst pairs)))%nat.
Proof.
  induction pairs as [|[this next] rest IH]; intros t t' H.
  - injection H as <-. simpl. lia.
  - simpl List.map. simpl List.filter. unfold starts_row at 1.
    destruct (PyStr.startswith this " ") eqn:H1.
    + rewrite build_loop_cons_space in H by exact H1. simpl. now apply IH.
    + assert (forall row, build_loop cols rest (add_row t row) = Ok t' ->
                List.length (rows t')
                = (List.length (rows t)
                   + S (List.length (List.filter starts_row (List.map fst rest))))%nat)
        as Hrow.
      { intros row Hr. rewrite (IH _ _ Hr). unfold add_row. cbn [rows].
        rewrite length_app. simpl. lia. }
      simpl. destruct (PyStr.startswith next " ") eqn:H2.
      * rewrite build_loop_cons_multi in H by assumption.
        destruct (parse_multiline_row this next cols); [|discriminate].
        now apply (Hrow a).
      * rewrite build_loop_cons_single in H by assumption.
        destruct (parse_singleline_row this cols); [|discriminate].
        now apply (Hrow a).
Qed.

(** X15: A table built from a body has one row for each body line that does not
    begin with a space. *)
Theorem build_row_count (cols : list NetUseColumn) (body_lines : list string)
    (table : NetUseTable) :
  build_net_use_table_from_parts cols body_lines = Ok table ->
  List.length (rows table) = List.length (List.filter starts_row body_lines).
Proof.
  unfold build_net_use_table_from_parts. intros H.
  apply build_loop_count in H.
  change (row_pairs body_lines) with (pairs_with_next body_lines "") in H.
  now rewrite firsts_of_pairs in H.
Qed.

Lemma build_row_count_witness :
  List.length
    (rows (mkNetUseTable
             [ {[ "local" := "X:"; "remote" := "\\host\share"; "status" := "OK" ]};
               {[ "local" := ""; "remote" := "\\another.host\with\a\long\path";
                  "status" := "Disconnected" ]} ]))
  = List.length
      (List.filter starts_row
         ["OK           X:        \\host\share              Microsoft Windows Network";
          "Disconnected           \\another.host\with\a\long\path";
          "                                                Microsoft Windows Network"]).
Proof.
  apply (build_row_count sample_layout). vm_compute. reflexivity.
Defined.

Lemma raw_dict_None (line : string) (cols : list NetUseColumn) (k : string) :
  ~ In k (List.map name cols) -> raw_dict line cols !! k = None.
Proof.
  intros H. destruct (raw_dict line cols !! k) as [v|] eqn:E; [|reflexivity].
  apply raw_dict_fold_lookup in E as [E|(c & Hc & <- & _)].
  - rewrite lookup_empty in E. discriminate.
  - elim H. now apply in_map.
Qed.

(** X16: [parse_singleline_row] returns a row exactly when [Local], [Remote] and
    [Status] are all among the names of the columns; otherwise it raises
    [KeyError]; it raises nothing else. *)
Theorem parse_singleline_row_outcome (line : string) (cols : list NetUseColumn) :
  (has_standard_titles cols <-> exists row, parse_singleline_row line cols = Ok row) /\
  (~ has_standard_titles cols <-> parse_singleline_row line cols = Err KeyError) /\
  (forall e, parse_singleline_row line cols = Err e -> e = KeyError).
Proof.
  assert (~ has_standard_titles cols -> parse_singleline_row line cols = Err KeyError)
    as Hmiss.
  { intros Hn. unfold parse_singleline_row.
    destruct (rekey_dict _ _) as [row|e] eqn:R.
    - elim Hn. apply rekey_dict_inv in R as (v1 & v2 & v3 & H1 & H2 & H3 & _).
      unfold has_standard_titles.
      repeat split;
        match goal with
        | |- In ?k _ =>
            destruct (in_dec string_dec k (List.map name cols)) as [Hin|Hin];
            [exact Hin | rewrite (raw_dict_None line cols k Hin) in *; discriminate]
        end.
    - now rewrite (rekey_dict_Err _ _ R). }
  split; [|split].
  - split; [apply parse_singleline_row_total|]. intros [row H].
    destruct (in_dec string_dec "Local" (List.map name cols)) as [H1|H1];
      destruct (in_dec string_dec "Remote" (List.map name cols)) as [H2|H2];
      destruct (in_dec string_dec "Status" (List.map name cols)) as [H3|H3];
      try (now repeat split);
      rewrite Hmiss in H by (unfold has_standard_titles; tauto); discriminate.
  - split; [exact Hmiss|]. intros H Ht.
    destruct (parse_singleline_row_total line cols Ht) as [row Hr]. congruence.
  - apply parse_singleline_row_Err.
Qed.

(** X17: [parse_multiline_row] raises [IndexError] exactly when the layout has
    fewer than two columns, whatever their names; with two columns or more
    it returns a row when the three standard titles are among the names and
    raises [KeyError] when one is missing. *)
Theorem parse_multiline_row_outcome (line1 line2 : string) (cols : list NetUseColumn) :
  ((List.length cols < 2)%nat <->
   parse_multiline_row line1 line2 cols = Err IndexError) /\
  ((2 <= List.length cols)%nat -> ~ has_standard_titles cols ->
   parse_multiline_row line1 line2 cols = Err KeyError) /\
  (has_standard_titles cols ->
   exists row, parse_multiline_row line1 line2 cols = Ok row).
Proof.
  split; [|split].
  - split.
    + intros Hlen. unfold parse_multiline_row, custom_columns.
      destruct cols as [|c [|c' cols]]; simpl in Hlen; try lia; reflexivity.
    + intros H. destruct (Nat.lt_ge_cases (List.length cols) 2) as [Hlt|Hge];
        [exact Hlt|].
      destruct (split_last_two cols Hge) as (front & c2 & c1 & ->).
      unfold parse_multiline_row in H. rewrite custom_columns_app in H.
      cbn [rbind] in H. apply parse_singleline_row_Err in H. discriminate.
  - intros Hge Hn.
    destruct (split_last_two cols Hge) as (front & c2 & c1 & ->).
    unfold parse_multiline_row. rewrite custom_columns_app. cbn [rbind].
    destruct (parse_singleline_row _ _) as [row|e] eqn:R.
    + elim Hn. unfold has_standard_titles.
      assert (has_standard_titles
                (front ++ [set_end (PyStr.len line1) c2;
                           set_start (PyStr.len line1 + 1) c1])) as Ht.
      { destruct (in_dec string_dec "Local"
                    (List.map name (front ++ [set_end (PyStr.len line1) c2;
                                              set_start (PyStr.len line1 + 1) c1])))
          as [H1|H1];
        destruct (in_dec string_dec "Remote"
                    (List.map name (front ++ [set_end (PyStr.len line1) c2;
                                              set_start (PyStr.len line1 + 1) c1])))
          as [H2|H2];
        destruct (in_dec string_dec "Status"
                    (List.map name (front ++ [set_end (PyStr.len line1) c2;
                                              set_start (PyStr.len line1 + 1) c1])))
          as [H3|H3];
        try (now repeat split);
        apply rekey_dict_inv in R as (v1 & v2 & v3 & E1 & E2 & E3 & _);
        first [ rewrite (raw_dict_None _ _ _ H1) in E1; discriminate
              | rewrite (raw_dict_None _ _ _ H2) in E2; discriminate
              | rewrite (raw_dict_None _ _ _ H3) in E3; discriminate ]. }
      unfold has_standard_titles in Ht. rewrite !map_app in *. exact Ht.
    + now rewrite (parse_singleline_row_Err _ _ _ R).
  - apply parse_multiline_row_total.
Qed.

End EdgeFacts.

(** ** The whole parse, the criteria and the store *)

Section PipelineFacts.

Local Open Scope list_scope.

Lemma split_on_cons (sep c : ascii) (t : string) :
  PyStr.split_on sep (String c t)
  = if Ascii.eqb c sep then "" :: PyStr.split_on sep t
    else match PyStr.split_on sep t with
         | w :: ws => String c w :: ws
         | [] => [String c ""]
         end.
Proof. reflexivity. Qed.

Lemma rstrip_lines_crlf (s : string) :
  List.map PyStr.rstrip (PyStr.split_on newline (crlf s))
  = List.map PyStr.rstrip (PyStr.split_on newline s).
Proof.
  induction s as [|c t IH]; [reflexivity|].
  cbn [crlf]. rewrite (split_on_cons newline c t).
  destruct (Ascii.eqb c newline) eqn:E.
  - rewrite (split_on_cons newline (ascii_of_nat 13)).
    change (Ascii.eqb (ascii_of_nat 13) newline) with false. cbv iota.
    rewrite (split_on_cons newline c), E. cbn [List.map]. now rewrite IH.
  - rewrite (split_on_cons newline c), E.
    destruct (PyStr.split_on newline (crlf t)) as [|w' ws'];
      destruct (PyStr.split_on newline t) as [|w ws]; try discriminate.
    + reflexivity.
    + cbn [List.map] in *. injection IH as Hw Hws.
      unfold PyStr.rstrip in *. rewrite !rstrip_by_cons, Hw, Hws. reflexivity.
Qed.

(** X18: Carriage returns before the line feeds make no difference: the lines are
    the same, and so is the table parsed from them. *)
Theorem parse_ignores_carriage_returns (s : string) :
  split_lines (crlf s) = split_lines s /\
  parse_populated_net_use_table (crlf s) = parse_populated_net_use_table s.
Proof.
  assert (split_lines (crlf s) = split_lines s) as H by apply rstrip_lines_crlf.
  split; [exact H|]. unfold parse_populated_net_use_table. now rewrite H.
Qed.

(** X19: A text in which the empty-table sentence occurs is parsed to a table
    without rows, whatever stands before and after the sentence. *)
Theorem parse_empty_table (before after : string) :
  parse_net_use_table (before ++ EMPTY_TABLE_INDICATOR ++ after)%string
  = Ok NetUseTable_init.
Proof.
  unfold parse_net_use_table.
  assert (PyStr.contains EMPTY_TABLE_INDICATOR
            (before ++ EMPTY_TABLE_INDICATOR ++ after)%string = true) as ->.
  { apply contains_iff. now exists before, after. }
  reflexivity.
Qed.

Lemma filter_filter {A : Type} (p q : A -> bool) (l : list A) :
  List.filter q (List.filter p l) = List.filter (fun x => (p x && q x)%bool) l.
Proof.
  induction l as [|x l IH]; [reflexivity|]. simpl.
  destruct (p x); simpl; [destruct (q x); now rewrite IH | exact IH].
Qed.

Lemma filter_ext_bool {A : Type} (p q : A -> bool) (l : list A) :
  (forall x, p x = q x) -> List.filter p l = List.filter q l.
Proof.
  intros H. induction l as [|x l IH]; [reflexivity|]. simpl.
  now rewrite H, IH.
Qed.

Lemma Forall_filter_sub {A : Type} (P : A -> Prop) (p : A -> bool) (l : list A) :
  Forall P l -> Forall P (List.filter p l).
Proof.
  intros H. induction H as [|x l Hx _ IH]; simpl; [constructor|].
  destruct (p x); [now constructor | exact IH].
Qed.

(** X5: The criteria are applied together as they would be one after the other:
    when [get_matching_rows] returns with the three criteria, filtering by
    [local], then what is left by [remote], then what is left by [status],
    returns the same rows. *)
Theorem get_matching_rows_successive (self : NetUseTable)
    (local remote status : option string) (res : list (gmap string string)) :
  get_matching_rows self local remote status = Ok res ->
  exists by_local by_remote,
    get_matching_rows self local None None = Ok by_local /\
    get_matching_rows (mkNetUseTable by_local) None remote None = Ok by_remote /\
    get_matching_rows (mkNetUseTable by_remote) None None status = Ok res.
Proof.
  intros H. apply get_matching_rows_loop_Ok in H as [Hall ->].
  simpl app.
  assert (forall l r s,
             (forall row, lacks_needed_key l r s row ->
                          lacks_needed_key local remote status row) ->
             forall rows_, Forall (fun row => ~ lacks_needed_key local remote status row) rows_ ->
             get_matching_rows (mkNetUseTable rows_) l r s
             = Ok (List.filter (row_passes l r s) rows_)) as Hrun.
  { intros l r s Hsub rows_ Hrows. unfold get_matching_rows.
    apply get_matching_rows_loop_Ok. split; [|reflexivity].
    eapply Forall_impl; [exact Hrows|]. intros row Hrow C. apply Hrow, Hsub, C. }
  exists (List.filter (row_passes local None None) (rows self)),
    (List.filter (row_passes None remote None)
       (List.filter (row_passes local None None) (rows self))).
  assert (forall l r s row,
             lacks_needed_key l r s row ->
             (l = local \/ l = None) -> (r = remote \/ r = None) ->
             (s = status \/ s = None) ->
             lacks_needed_key local remote status row) as Hsub.
  { intros l r s row [[H1 H2]|[[H1 H2]|[H1 H2]]] [-> | ->] [-> | ->] [-> | ->];
      try exact (is_Some_None_inv _ H1);
      [left | left | left | left | right; left | right; left | right; left
       | right; left | right; right | right; right | right; right | right; right];
      now split. }
  split; [|split].
  - destruct self as [rows_]. apply Hrun; [|exact Hall].
    intros row C. apply (Hsub _ _ _ _ C); tauto.
  - apply Hrun; [|now apply Forall_filter_sub].
    intros row C. apply (Hsub _ _ _ _ C); tauto.
  - rewrite Hrun; [| intros row C; apply (Hsub _ _ _ _ C); tauto
                   | now do 2 apply Forall_filter_sub].
    f_equal. rewrite !filter_filter. apply filter_ext_bool. intros row.
    unfold row_passes, values_pass. simpl.
    rewrite !andb_true_r. now rewrite andb_assoc.
Qed.

Lemma get_matching_rows_successive_witness :
  exists by_local by_remote,
    get_matching_rows (mkNetUseTable [host_row]) (Some "z:") None None
    = Ok by_local /\
    get_matching_rows (mkNetUseTable by_local) None (Some "\\HOST") None
    = Ok by_remote /\
    get_matching_rows (mkNetUseTable by_remote) None None (Some "ok")
    = Ok [host_row].
Proof.
  apply (get_matching_rows_successive (mkNetUseTable [host_row])
           (Some "z:") (Some "\\HOST") (Some "ok")).
  vm_compute. reflexivity.
Defined.

Lemma build_loop_subseteq (columns : list Store.loc) (pairs : list (string * string)) :
  forall (t : NetUseTable) (h : Store.heap),
    h ⊆ snd (Store.build_loop columns pairs t h).
Proof.
  induction pairs as [|[this next] rest IH]; intros t h; [reflexivity|].
  cbn [Store.build_loop]. destruct (negb (PyStr.startswith this " ")).
  - destruct (PyStr.startswith next " ").
    + destruct (Store.parse_multiline_row this next columns h) as [r h1] eqn:Hm.
      pose proof (parse_multiline_row_subseteq _ _ _ _ _ _ Hm) as Hsub.
      unfold Store.bind at 1 2. rewrite Hm.
      destruct r as [row|e]; cbn.
      * etransitivity; [exact Hsub | apply IH].
      * exact Hsub.
    + unfold Store.bind at 1 2. rewrite parse_singleline_row_layout.
      destruct (match Store.layout h columns with
                | Some cs => parse_singleline_row this cs
                | None => Err RuntimeError
                end); cbn; [apply IH | reflexivity].
  - unfold Store.bind at 1. cbn. apply IH.
Qed.

(** X20: Building a table through a list of distinct column objects gives the
    table that the values of those objects give, and leaves the objects as
    they were: every object of the store is unchanged after the loop, so the
    list denotes the same layout, however many two-line rows were read. *)
Theorem build_through_store (columns : list Store.loc) (cs : list NetUseColumn)
    (body_lines : list string) (h : Store.heap) :
  NoDup columns ->
  Store.layout h columns = Some cs ->
  fst (Store.build_net_use_table_from_parts columns body_lines h)
  = build_net_use_table_from_parts cs body_lines /\
  h ⊆ snd (Store.build_net_use_table_from_parts columns body_lines h) /\
  Store.layout (snd (Store.build_net_use_table_from_parts columns body_lines h))
    columns = Some cs.
Proof.
  intros Hnd Hlay. unfold Store.build_net_use_table_from_parts.
  destruct (build_loop_agrees columns cs (row_pairs body_lines) Hnd
              NetUseTable_init h Hlay) as [H1 H2].
  split; [exact H1|]. split; [apply build_loop_subseteq | exact H2].
Qed.

Lemma build_through_store_witness :
  fst (Store.build_net_use_table_from_parts Store.sample_columns
         (get_body (split_lines sample_output)) Store.sample_heap)
  = build_net_use_table_from_parts sample_layout
      (get_body (split_lines sample_output)) /\
  Store.sample_heap
  ⊆ snd (Store.build_net_use_table_from_parts Store.sample_columns
           (get_body (split_lines sample_output)) Store.sample_heap) /\
  Store.layout
    (snd (Store.build_net_use_table_from_parts Store.sample_columns
            (get_body (split_lines sample_output)) Store.sample_heap))
    Store.sample_columns = Some sample_layout.
Proof.
  apply build_through_store.
  - repeat constructor; intros H;
      repeat (apply elem_of_cons in H as [H|H]; [discriminate H|]); inversion H.
  - vm_compute. reflexivity.
Defined.

End PipelineFacts.


(** ** The properties above on sample values *)

Section Samples.

Local Open Scope list_scope.

Lemma sanitizers_fixed_points_witness :
  Sanitizors.sanitize_file_name "report.txt" = "report.txt".
Proof.
  apply (proj2 (proj2 (proj2 (proj2 (sanitizers_fixed_points "report.txt"))))).
  reflexivity.
Defined.

Lemma sanitize_for_shell_twice_witness :
  Sanitizors.sanitize_for_shell "net use" = "net use".
Proof.
  apply (proj2 (proj2 (sanitize_for_shell_twice "net use"))). reflexivity.
Defined.

Lemma extract_bounds_witness :
  extract (mkNetUseColumn "Network" 49 None) "OK           X:" = "".
Proof.
  apply (proj2 (proj2 (extract_bounds (mkNetUseColumn "Network" 49 None)
                         "OK           X:"))).
  - simpl. lia.
  - vm_compute. discriminate.
Defined.

Lemma parse_singleline_row_outcome_witness :
  parse_singleline_row "row" [mkNetUseColumn "Name" 0 None] = Err KeyError.
Proof.
  apply (proj1 (proj1 (proj2 (parse_singleline_row_outcome "row"
                                [mkNetUseColumn "Name" 0 None])))).
  intros [H _]. simpl in H. destruct H as [H|[]]. discriminate H.
Defined.

Lemma parse_multiline_row_outcome_witness :
  parse_multiline_row "row" " more" [mkNetUseColumn "Local" 0 None]
  = Err IndexError.
Proof.
  apply (proj1 (proj1 (parse_multiline_row_outcome "row" " more"
                         [mkNetUseColumn "Local" 0 None]))).
  simpl. lia.
Defined.

Lemma drive_letters_equal_insensitive_witness :
  drive_letters_equal "Z:" "z::" = true.
Proof.
  apply (proj2 (proj2 (proj2 (proj2
           (drive_letters_equal_insensitive "Z:" "z" "z::"))))); reflexivity.
Defined.

Lemma get_column_values_witness :
  get_column (mkNetUseTable [host_row]) "remote" = Ok ["\\host"].
Proof.
  apply (proj1 (get_column_values (mkNetUseTable [host_row]) "remote")).
  repeat constructor.
Defined.

Lemma get_matching_rows_filter_witness :
  get_matching_rows (mkNetUseTable [host_row; ∅]) (Some "y") None None
  = Err KeyError.
Proof.
  apply (proj2 (get_matching_rows_filter (mkNetUseTable [host_row; ∅])
                  (Some "y") None None)).
  split; [reflexivity|]. apply Exists_cons_tl, Exists_cons_hd.
  left. split; [eexists; reflexivity | reflexivity].
Defined.

End Samples.
